(** * Dashboard_home.py: the signal-to-events pipeline

    A shallow embedding of [detecteer_Rpieken], [initialize_data] and the
    sidebar of [homepage] from [Dashboard_home.py], together with the
    library routines they call:
    - [scipy.signal.find_peaks] with [height], after the loop of
      [_local_maxima_1d] in scipy/signal/_peak_finding_utils.pyx;
    - [pandas.cut] with a list of bin edges and labels, after
      [_bins_to_cuts] in pandas/core/reshape/tile.py;
    - [Series.diff], [Series.rolling(window=2).mean], [Series.notna],
      [DataFrame.iloc], and Python's builtin [max].

    Numbers.  ECG amplitudes, elapsed seconds and thresholds are binary64
    values in the program.  They are embedded as exact rationals ([Q]); the
    two non-numbers the pipeline can produce, NaN (from [diff] and
    [rolling]) and +inf (from [60 / 0.0]), are explicit constructors of
    [float64].  Rounding of products, quotients and means is not modelled.
    Raw [time] ticks are integers and [elapsed] is the exact quotient;
    [elapsed_int64] is what the machine computes (int64 subtraction, which
    wraps, then conversion to binary64, which rounds above 2^53), and the
    two agree on [ticks_in_range].  Array positions are naturals.

    Tables.  A table is typed: every [time] cell is an integer and every
    ECG cell a number, without missing values.  A column that [read_csv]
    parses as text, on which lines 25 and 85 raise TypeError, has no
    representation; statements about the outcomes of the pipeline are about
    typed tables.

    Effects.  [st.session_state] is a finite map from keys to values, the
    messages shown on the page in one run are a list, exceptions are values
    of [result].  What [pd.read_csv] makes of a file and what the age
    widget returns are inputs of the model. *)

From Stdlib Require Import QArith Lqa Lia List ZArith String.
From stdpp Require Import gmap strings list fin_maps sorting.
Import ListNotations.

Local Open Scope string_scope.
Local Open Scope list_scope.
Local Open Scope nat_scope.

(** ** Exceptions and fallible computations *)

Inductive exception :=
| OSError (msg : string)        (* read_csv: missing or unreadable file *)
| ParserError (msg : string)    (* read_csv: malformed contents *)
| KeyError (key : string)       (* df['col'] on an absent column *)
| IndexError (msg : string)     (* .iloc out of bounds *)
| ValueError (msg : string).    (* max() of an empty sequence, bad bins *)

(** [str(e)] *)
Definition str (e : exception) : string :=
  match e with
  | OSError m | ParserError m | IndexError m | ValueError m => m
  | KeyError k => "'" ++ k ++ "'"
  end.

Inductive result (A : Type) :=
| Ok (a : A)
| Raise (e : exception).
Arguments Ok {A} a.
Arguments Raise {A} e.

#[global] Instance result_ret : MRet result := fun A a => Ok a.

#[global] Instance result_bind : MBind result := fun A B k r =>
  match r with
  | Ok a => k a
  | Raise e => Raise e
  end.

(** ** Comparisons on rationals as booleans *)

Definition Qltb (a b : Q) : bool :=
  match (a ?= b)%Q with Lt => true | _ => false end.

Definition Qleb (a b : Q) : bool :=
  match (a ?= b)%Q with Gt => false | _ => true end.

(** ** The float64 values of the beat table *)

Inductive float64 :=
| NaN
| Inf
| Num (q : Q).

Definition notna (v : float64) : bool :=
  match v with NaN => false | _ => true end.

(** [a / b] for a positive finite numerator [a], as numpy computes it:
    NaN propagates, a zero divisor gives +inf. *)
Definition fdiv_pos (a : Q) (b : float64) : float64 :=
  match b with
  | NaN => NaN
  | Inf => Num 0%Q
  | Num r => if Qeq_bool r 0 then Inf else Num (a / r)%Q
  end.

(** ** scipy.signal: local maxima and [find_peaks] *)

Module Scipy.

(** [x[i]] on the contiguous float64 buffer. *)
Definition at_ (x : list Q) (i : nat) : Q := nth i x 0%Q.

(** The inner loop of [_local_maxima_1d]:
    [while i_ahead < i_max and x[i_ahead] == x[i]: i_ahead += 1]. *)
Fixpoint skip_equal (fuel : nat) (x : list Q) (xi : Q) (i_ahead i_max : nat)
  : nat :=
  match fuel with
  | O => i_ahead
  | S fuel' =>
      if (i_ahead <? i_max) && Qeq_bool (at_ x i_ahead) xi
      then skip_equal fuel' x xi (S i_ahead) i_max
      else i_ahead
  end.

(** The outer loop of [_local_maxima_1d], [while i < i_max].  Each found
    maximum is recorded as (midpoint, left edge, right edge). *)
Fixpoint scan_maxima (fuel : nat) (x : list Q) (i i_max : nat)
  : list (nat * nat * nat) :=
  match fuel with
  | O => []
  | S fuel' =>
      if i <? i_max then
        if Qltb (at_ x (i - 1)) (at_ x i) then
          let i_ahead := skip_equal (i_max - (i + 1)) x (at_ x i) (i + 1) i_max in
          if Qltb (at_ x i_ahead) (at_ x i) then
            (Nat.div (i + (i_ahead - 1)) 2, i, i_ahead - 1)
              :: scan_maxima fuel' x (i_ahead + 1) i_max
          else scan_maxima fuel' x (i + 1) i_max
        else scan_maxima fuel' x (i + 1) i_max
      else []
  end.

(** [_local_maxima_1d(x)]: [i = 1], [i_max = x.shape[0] - 1]. *)
Definition local_maxima_1d (x : list Q) : list (nat * nat * nat) :=
  scan_maxima (length x) x 1 (length x - 1).

Definition midpoints (x : list Q) : list nat :=
  map (fun t => fst (fst t)) (local_maxima_1d x).

(** [find_peaks(x, height=h)[0]]: the midpoints with [h <= x[peak]]. *)
Definition find_peaks (x : list Q) (height : Q) : list nat :=
  filter (fun p => Qleb height (at_ x p) = true) (midpoints x).

End Scipy.


(** ** pandas: frames, binning, differences, rolling means *)

Module Pandas.

(** A DataFrame: the column names it holds and its rows, in load order. *)
Record Frame (R : Type) := { columns : list string; rows : list R }.
Arguments columns {R} f.
Arguments rows {R} f.

(** [df[col]]: KeyError when the column is absent. *)
Definition getitem {R A} (df : Frame R) (col : string) (field : R -> A)
  : result (list A) :=
  if bool_decide (col ∈ columns df) then Ok (map field (rows df))
  else Raise (KeyError col).

(** [df[col] = ...]: the column is appended unless it exists already. *)
Definition with_column (cols : list string) (col : string) : list string :=
  if bool_decide (col ∈ cols) then cols else cols ++ [col].

(** [series.iloc[0]] *)
Definition iloc0 {A} (s : list A) : result A :=
  match s with
  | a :: _ => Ok a
  | [] => Raise (IndexError "single positional indexer is out-of-bounds")
  end.

(** [df.iloc[positions]] with an integer array. *)
Fixpoint iloc {R} (rs : list R) (positions : list nat) : result (list R) :=
  match positions with
  | [] => Ok []
  | p :: ps =>
      match rs !! p with
      | Some r => rest ← iloc rs ps; Ok (r :: rest)
      | None => Raise (IndexError "positional indexers are out-of-bounds")
      end
  end.

(** [bins.is_monotonic_increasing] *)
Fixpoint is_monotonic_increasing (bins : list Q) : bool :=
  match bins with
  | a :: (b :: _) as tl => Qleb a b && is_monotonic_increasing tl
  | _ => true
  end.

(** On a monotonic index, [len(unique(bins)) < len(bins)] holds exactly
    when two neighbouring edges are equal. *)
Fixpoint has_duplicates (bins : list Q) : bool :=
  match bins with
  | a :: (b :: _) as tl => Qeq_bool a b || has_duplicates tl
  | _ => false
  end.

(** [bins.searchsorted(t, side='left')] on a monotonic index: the number of
    edges strictly below [t]. *)
Fixpoint searchsorted_left (bins : list Q) (t : Q) : nat :=
  match bins with
  | [] => 0
  | b :: tl => if Qltb b t then S (searchsorted_left tl t) else 0
  end.

(** One element of [_bins_to_cuts] with [right=True],
    [include_lowest=False]: [ids == 0] and [ids == len(bins)] are masked
    to NaN ([None]), every other value takes [labels[ids - 1]]. *)
Definition cut1 (bins : list Q) (labels : list string) (t : Q)
  : option string :=
  let ids := searchsorted_left bins t in
  if (ids =? length bins) || (ids =? 0) then None
  else labels !! (ids - 1).

(** [pd.cut(x, bins=bins, labels=labels, ordered=False)] for a list of
    bin edges. *)
Definition cut (x : list Q) (bins : list Q) (labels : list string)
  : result (list (option string)) :=
  if negb (is_monotonic_increasing bins) then
    Raise (ValueError "bins must increase monotonically.")
  else if has_duplicates bins && negb (length bins =? 2) then
    Raise (ValueError "Bin edges must be unique")
  else if negb (length labels =? length bins - 1) then
    Raise (ValueError "Bin labels must be one fewer than the number of bin edges")
  else Ok (map (cut1 bins labels) x).

(** [series.diff()] *)
Fixpoint diff_from (prev : Q) (s : list Q) : list float64 :=
  match s with
  | [] => []
  | t :: tl => Num (t - prev)%Q :: diff_from t tl
  end.

Definition diff (s : list Q) : list float64 :=
  match s with
  | [] => []
  | t :: tl => NaN :: diff_from t tl
  end.

(** [series.rolling(window=2).mean()] *)
Fixpoint rolling2_from (prev : Q) (s : list Q) : list float64 :=
  match s with
  | [] => []
  | t :: tl => Num ((prev + t) / 2)%Q :: rolling2_from t tl
  end.

Definition rolling2_mean (s : list Q) : list float64 :=
  match s with
  | [] => []
  | t :: tl => NaN :: rolling2_from t tl
  end.

End Pandas.

Import Pandas.

(** ** Rows of the two tables *)

(** A row as [read_csv] delivers it. *)
Record RawRow := { raw_time : Z; raw_ECG : Q }.

(** A row of [df_ecg]: [idx] is the RangeIndex label. *)
Record Sample := {
  idx : nat;
  time : Z;
  ECG : Q;
  timestamp : Q;
  activiteit : option string
}.

(** A row of [df_ecg_pieken]: the sample's columns and the three derived. *)
Record Beat := {
  sample : Sample;
  rr : float64;
  bpm : float64;
  gemiddelde_tijd : float64
}.

(** Python's builtin [max] over a sequence. *)
Fixpoint max_from (cur : Q) (l : list Q) : Q :=
  match l with
  | [] => cur
  | y :: tl => max_from (if Qltb cur y then y else cur) tl
  end.

Definition py_max (l : list Q) : result Q :=
  match l with
  | [] => Raise (ValueError "max() iterable argument is empty")
  | y :: tl => Ok (max_from y tl)
  end.

(** ** [detecteer_Rpieken] *)

Definition detecteer_Rpieken (df : Frame Sample) (pct_drempel : Q)
  : result (Frame Sample) :=
  ecg ← getitem df "ECG" ECG;
  max_ecg ← py_max ecg;
  let drempelwaarde := (pct_drempel * max_ecg)%Q in
  let pieken := Scipy.find_peaks ecg drempelwaarde in
  df_pieken ← iloc (rows df) pieken;
  Ok {| columns := columns df; rows := df_pieken |}.

(** ** The session store and what the page shows *)

Inductive value :=
| VInt (n : Z)
| VFloat (q : Q)
| VBool (b : bool)
| VInts (l : list Z)
| VStrs (l : list string)
| VDict (d : list (string * string))
| VSamples (df : Frame Sample)
| VBeats (df : Frame Beat).

Inductive message :=
| Error (text : string)      (* st.error *)
| Success (text : string)    (* st.success *)
| Info (text : string).      (* st.info *)

Record Streamlit := {
  session_state : gmap string value;
  shown : list message
}.

(** What [pd.read_csv] makes of a file: a parsed table or an exception. *)
Definition File := result (Frame RawRow).

(** ** The configuration written by [initialize_data] *)

Definition start_meting : Z := 0.
Definition start_lopen : Z := 120.
Definition schoenen_aandoen : Z := 240.
Definition lopen : Z := 360.
Definition hond_uitlaten : Z := 420.
Definition start_herstellen : Z := 2160.
Definition weer_lopen : Z := 3360.
Definition zitten : Z := 4020.
Definition alweer_lopen : Z := 6000.
Definition start_traplopen : Z := 6480.
Definition zittend_herstellen : Z := 6780.
Definition einde_meting : Z := 7320.

Definition rpieken_drempel : Q := 0.6.

Definition intervallen : list Z :=
  [ start_meting; start_lopen; schoenen_aandoen; lopen;
    start_herstellen; weer_lopen; zitten; alweer_lopen;
    start_traplopen; zittend_herstellen; einde_meting ].

Definition activiteiten : list string :=
  [ "zitten"; "lopen"; "schoenen aandoen"; "lopen";
    "zitten"; "lopen"; "zitten"; "lopen"; "traplopen"; "zitten" ].

Definition activiteiten_kleuren : list (string * string) :=
  [ ("zitten", "blue"); ("lopen", "green");
    ("schoenen aandoen", "purple"); ("traplopen", "red") ].

(** Lines 38-76: the assignments to [st.session_state] before the [try]. *)
Definition configure (ss : gmap string value) : gmap string value :=
  <["activiteiten_kleuren" := VDict activiteiten_kleuren]>
  (<["activiteiten" := VStrs activiteiten]>
  (<["intervallen" := VInts intervallen]>
  (<["rpieken_drempel" := VFloat rpieken_drempel]>
  (<["einde_meting" := VInt einde_meting]>
  (<["zittend_herstellen" := VInt zittend_herstellen]>
  (<["start_traplopen" := VInt start_traplopen]>
  (<["alweer_lopen" := VInt alweer_lopen]>
  (<["zitten" := VInt zitten]>
  (<["weer_lopen" := VInt weer_lopen]>
  (<["start_herstellen" := VInt start_herstellen]>
  (<["hond_uitlaten" := VInt hond_uitlaten]>
  (<["lopen" := VInt lopen]>
  (<["schoenen_aandoen" := VInt schoenen_aandoen]>
  (<["start_lopen" := VInt start_lopen]>
  (<["start_meting" := VInt start_meting]> ss))))))))))))))).

(** ** The body of the [try] block *)

(** [(time - time.iloc[0]) / 1024] for one tick value. *)
Definition elapsed (t0 t : Z) : Q := Qmake (t - t0) 1024.

(** The rows of [df_ecg] from its columns, numbered from [i]. *)
Fixpoint assemble (i : nat) (raw : list RawRow) (ts : list Q)
  (act : list (option string)) : list Sample :=
  match raw, ts, act with
  | r :: raw', t :: ts', a :: act' =>
      {| idx := i; time := raw_time r; ECG := raw_ECG r;
         timestamp := t; activiteit := a |} :: assemble (S i) raw' ts' act'
  | _, _, _ => []
  end.

(** The rows of [df_ecg_pieken] from the peak rows and the three new
    columns. *)
Fixpoint assemble_beats (ps : list Sample) (rrs bpms gem : list float64)
  : list Beat :=
  match ps, rrs, bpms, gem with
  | p :: ps', r :: rrs', b :: bpms', g :: gem' =>
      {| sample := p; rr := r; bpm := b; gemiddelde_tijd := g |}
        :: assemble_beats ps' rrs' bpms' gem'
  | _, _, _, _ => []
  end.

(** Lines 91-94: the [rr], [bpm] and [gemiddelde_tijd] columns over the
    peaks' [timestamp] column, then the rows whose [rr] is not NaN. *)
Definition derive_beats (ps : list Sample) (ts : list Q) : list Beat :=
  let rrs := diff ts in
  let bpms := map (fdiv_pos 60) rrs in
  let gem := rolling2_mean ts in
  filter (fun b => notna (rr b) = true) (assemble_beats ps rrs bpms gem).

(** Lines 80-94. *)
Definition process (file : File) (bins : list Z) (labels : list string)
  (drempel : Q) : result (Frame Sample * Frame Beat) :=
  df ← file;
  t ← getitem df "time" raw_time;
  t0 ← iloc0 t;
  let ts := map (elapsed t0) t in
  let cols := with_column (columns df) "timestamp" in
  act ← cut ts (map inject_Z bins) labels;
  let cols := with_column cols "activiteit" in
  let df_ecg := {| columns := cols; rows := assemble 0 (rows df) ts act |} in
  df_ecg_pieken ← detecteer_Rpieken df_ecg drempel;
  tsp ← getitem df_ecg_pieken "timestamp" timestamp;
  let cols := with_column (with_column (with_column (columns df_ecg_pieken)
                "rr") "bpm") "gemiddelde_tijd" in
  let beats := derive_beats (rows df_ecg_pieken) tsp in
  Ok (df_ecg, {| columns := cols; rows := beats |}).

(** ** [initialize_data] *)

Definition initialize_data (uploaded_file : option File) (data_Sanne : File)
  (st : Streamlit) : option bool * Streamlit :=
  match session_state st !! "data_initialized" with
  | Some _ => (None, st)
  | None =>
      let ss := configure (session_state st) in
      let file := match uploaded_file with
                  | Some f => f
                  | None => data_Sanne
                  end in
      match process file intervallen activiteiten rpieken_drempel with
      | Ok (df_ecg, df_ecg_pieken) =>
          (Some true,
           {| session_state :=
                <["data_initialized" := VBool true]>
                (<["df_ecg_pieken" := VBeats df_ecg_pieken]>
                (<["df_ecg" := VSamples df_ecg]> ss));
              shown := shown st |})
      | Raise e =>
          (Some false,
           {| session_state := ss;
              shown := shown st ++
                [Error ("Er is een fout opgetreden bij het laden van het bestand: "
                        ++ str e)] |})
      end
  end.

(** Lines 140-147 of [homepage]: the upload branch of the sidebar. *)
Definition homepage_upload (uploaded_file : option File) (data_Sanne : File)
  (st : Streamlit) : Streamlit :=
  let '(ret, st') := initialize_data uploaded_file data_Sanne st in
  let say m := {| session_state := session_state st';
                  shown := shown st' ++ [m] |} in
  match uploaded_file with
  | Some _ =>
      if bool_decide (ret = Some true)
      then say (Success "✅ Data succesvol geladen!")
      else say (Error "❌ Er is iets misgegaan bij het laden van het bestand. Controleer of het bestand het juiste formaat heeft.")
  | None =>
      if bool_decide (ret = Some true)
      then say (Info "ℹ️ Standaard voorbeelddata geladen. Upload uw eigen data voor persoonlijke analyse.")
      else st'
  end.

(** ** Predicates used in the statements *)

(** The first component of a recorded maximum. *)
Definition mid_of (t : nat * nat * nat) : nat := fst (fst t).

(** What [_local_maxima_1d] looks for: a run [l..r] of equal samples, not
    touching either end of the series, with a strictly smaller sample on
    each side. *)
Definition plateau_peak (x : list Q) (l r : nat) : Prop :=
  1 ≤ l ∧ l ≤ r ∧ r + 1 < length x ∧
  (Scipy.at_ x (l - 1) < Scipy.at_ x l)%Q ∧
  (∀ j, l ≤ j ≤ r → (Scipy.at_ x j == Scipy.at_ x l)%Q) ∧
  (Scipy.at_ x (r + 1) < Scipy.at_ x l)%Q.

(** The local maximum of the design document: at least both neighbours,
    strictly above one of them. *)
Definition weak_local_max (x : list Q) (m : nat) : Prop :=
  1 ≤ m ∧ m + 1 < length x ∧
  (Scipy.at_ x (m - 1) <= Scipy.at_ x m)%Q ∧
  (Scipy.at_ x (m + 1) <= Scipy.at_ x m)%Q ∧
  ((Scipy.at_ x (m - 1) < Scipy.at_ x m)%Q ∨
   (Scipy.at_ x (m + 1) < Scipy.at_ x m)%Q).

(** A frame straight from [read_csv] carries a RangeIndex: the label of a
    row is its position. *)
Definition range_indexed (rs : list Sample) : Prop :=
  ∀ i s, rs !! i = Some s → idx s = i.

(** Unfolded form of [derive_beats] before the NaN filter, given the
    previous peak. *)
Fixpoint beats_after (prev : Sample) (ps : list Sample) : list Beat :=
  match ps with
  | [] => []
  | p :: tl =>
      let r := Num (timestamp p - timestamp prev)%Q in
      {| sample := p; rr := r; bpm := fdiv_pos 60 r;
         gemiddelde_tijd := Num ((timestamp prev + timestamp p) / 2)%Q |}
        :: beats_after p tl
  end.


(** ** Concrete tables for the examples *)

(** A table as [read_csv] delivers it, from (time, ECG) pairs. *)
Definition raw_frame (l : list (Z * Q)) : Frame RawRow :=
  {| columns := ["time"; "ECG"];
     rows := map (fun p => {| raw_time := fst p; raw_ECG := snd p |}) l |}.

(** An enriched table with the given ECG column, one tick per sample. *)
Definition ecg_frame (e : list Q) : Frame Sample :=
  {| columns := ["time"; "ECG"; "timestamp"; "activiteit"];
     rows := imap (fun i v => {| idx := i; time := Z.of_nat i; ECG := v;
                                 timestamp := elapsed 0 (Z.of_nat i);
                                 activiteit := None |}) e |}.

(** A recording with one peak in the first activity and one in the second. *)
Definition two_beat_file : File :=
  Ok (raw_frame [(0%Z, 0%Q); (1024%Z, 5%Q); (2048%Z, 0%Q);
                 (130000%Z, 6%Q); (131000%Z, 0%Q)]).

(** A second recording, uploaded after the first one was processed. *)
Definition other_file : File :=
  Ok (raw_frame [(0%Z, 0%Q); (500%Z, 9%Q); (1000%Z, 0%Q);
                 (1500%Z, 9%Q); (2000%Z, 0%Q)]).

(** ** Reruns of the page *)

(** Lines 119-128 of [homepage]: the age widget.  [age] is the value
    [st.number_input] returns in this run. *)
Definition age_input (age : Z) (ss : gmap string value) : gmap string value :=
  let ss := match ss !! "user_age" with
            | Some _ => ss
            | None => <["user_age" := VInt 25]> ss
            end in
  <["user_age" := VInt age]> ss.

(** Lines 115-147 of [homepage]: the sidebar, age widget first, then the
    upload branch. *)
Definition homepage_sidebar (age : Z) (uploaded_file : option File)
  (data_Sanne : File) (st : Streamlit) : Streamlit :=
  homepage_upload uploaded_file data_Sanne
    {| session_state := age_input age (session_state st);
       shown := shown st |}.

(** Streamlit runs the page anew on every interaction.  Each run starts
    with an empty page on the session left by the previous run, and sees
    the current value of the age widget, the upload widget's current file
    (if any) and the default recording on disk. *)
Fixpoint renders (inputs : list (Z * option File * File)) (st : Streamlit)
  : Streamlit :=
  match inputs with
  | [] => st
  | (age, uploaded_file, data_Sanne) :: later =>
      renders later
        (homepage_sidebar age uploaded_file data_Sanne
           {| session_state := session_state st; shown := [] |})
  end.

(** What the other pages rely on: when the flag is in the store, so are
    the two tables and the activity configuration. *)
Definition store_consistent (ss : gmap string value) : Prop :=
  is_Some (ss !! "data_initialized") →
  (∃ df, ss !! "df_ecg" = Some (VSamples df)) ∧
  (∃ pk, ss !! "df_ecg_pieken" = Some (VBeats pk)) ∧
  ss !! "intervallen" = Some (VInts intervallen) ∧
  ss !! "activiteiten" = Some (VStrs activiteiten) ∧
  ss !! "activiteiten_kleuren" = Some (VDict activiteiten_kleuren).

(** The messages of the sidebar, as [homepage] and [initialize_data] word
    them. *)
Definition load_error (e : exception) : message :=
  Error ("Er is een fout opgetreden bij het laden van het bestand: " ++ str e).
Definition upload_failed : message :=
  Error "❌ Er is iets misgegaan bij het laden van het bestand. Controleer of het bestand het juiste formaat heeft.".
Definition upload_loaded : message :=
  Success "✅ Data succesvol geladen!".
Definition default_loaded : message :=
  Info "ℹ️ Standaard voorbeelddata geladen. Upload uw eigen data voor persoonlijke analyse.".

(** ** Line 85 on the machine *)

(** int64 subtraction: the difference modulo 2^64, read as a signed
    value. *)
Definition wrap_int64 (z : Z) : Z := ((z + 2 ^ 63) mod 2 ^ 64 - 2 ^ 63)%Z.

(** Conversion of an int64 to binary64: 53 significant bits, ties to
    even.  The result is again an integer. *)
Definition int64_to_float64 (z : Z) : Z :=
  let a := Z.abs z in
  if (a <? 2 ^ 53)%Z then z
  else
    let e := (Z.log2 a - 52)%Z in
    let q := (a / 2 ^ e)%Z in
    let r := (a mod 2 ^ e)%Z in
    let half := (2 ^ (e - 1))%Z in
    let q' := if (r <? half)%Z then q
              else if (half <? r)%Z then (q + 1)%Z
              else if Z.even q then q else (q + 1)%Z in
    (Z.sgn z * (q' * 2 ^ e))%Z.

(** [(time - time.iloc[0]) / 1024] as computed: the division by a power of
    two is exact. *)
Definition elapsed_int64 (t0 t : Z) : Q :=
  Qmake (int64_to_float64 (wrap_int64 (t - t0))) 1024.

(** Tick values that fit int64 and lie less than 2^53 ticks from the first
    one. *)
Definition ticks_in_range (ticks : list Z) : Prop :=
  ∀ t0, ticks !! 0 = Some t0 →
    Forall (λ t, (- 2 ^ 63 ≤ t < 2 ^ 63)%Z ∧ (Z.abs (t - t0) < 2 ^ 53)%Z) ticks.

(** ** Shifting the tick counter *)

(** The same recording with every [time] value moved by [c] ticks. *)
Definition shift_raw (c : Z) (r : RawRow) : RawRow :=
  {| raw_time := raw_time r + c; raw_ECG := raw_ECG r |}.

Definition shift_sample (c : Z) (s : Sample) : Sample :=
  {| idx := idx s; time := time s + c; ECG := ECG s;
     timestamp := timestamp s; activiteit := activiteit s |}.

Definition shift_beat (c : Z) (b : Beat) : Beat :=
  {| sample := shift_sample c (sample b); rr := rr b; bpm := bpm b;
     gemiddelde_tijd := gemiddelde_tijd b |}.

Definition map_rows {R} (f : R -> R) (df : Frame R) : Frame R :=
  {| columns := columns df; rows := map f (rows df) |}.

(** ** Total of the beat intervals *)

(** The sum of the [rr] column (a row without a number counts as 0). *)
Fixpoint sum_rr (beats : list Beat) : Q :=
  match beats with
  | [] => 0
  | b :: tl =>
      (match rr b with Num r => r | _ => 0 end + sum_rr tl)%Q
  end.

(** * Properties *)

(** ** Rational comparisons *)

Lemma Qltb_lt a b : Qltb a b = true ↔ (a < b)%Q.
Proof.
  unfold Qltb. rewrite Qlt_alt. destruct (a ?= b)%Q; split; congruence.
Qed.

Lemma Qleb_le a b : Qleb a b = true ↔ (a <= b)%Q.
Proof.
  unfold Qleb. rewrite Qle_alt. destruct (a ?= b)%Q; split; congruence.
Qed.

Lemma Qltb_ge a b : Qltb a b = false ↔ (b <= a)%Q.
Proof.
  split; intros H.
  - apply Qnot_lt_le. intros Hlt. apply Qltb_lt in Hlt. congruence.
  - destruct (Qltb a b) eqn:E; [|done]. apply Qltb_lt in E.
    exfalso. eapply Qlt_not_le; eauto.
Qed.

(** ** The scan for local maxima *)

Lemma skip_equal_spec (x : list Q) (i_max : nat) (v : Q) (fuel a : nat) :
  a ≤ i_max → i_max - a ≤ fuel →
  let j := Scipy.skip_equal fuel x v a i_max in
  a ≤ j ≤ i_max ∧
  (∀ k, a ≤ k < j → (Scipy.at_ x k == v)%Q) ∧
  (j < i_max → ¬ (Scipy.at_ x j == v)%Q).
Proof.
  revert a. induction fuel as [|fuel IH]; intros a Ha Hf; simpl.
  - repeat split; lia.
  - destruct (a <? i_max) eqn:Elt; simpl.
    + apply Nat.ltb_lt in Elt.
      destruct (Qeq_bool (Scipy.at_ x a) v) eqn:Eeq.
      * apply Qeq_bool_iff in Eeq.
        destruct (IH (S a)) as (Hr & Hk & Hn); [lia | lia |].
        repeat split; try lia; [|done].
        intros k Hkr. destruct (decide (k = a)) as [->|]; [done|].
        apply Hk. lia.
      * repeat split; try lia.
        intros _ Heq. apply Qeq_bool_iff in Heq. congruence.
    + apply Nat.ltb_ge in Elt. repeat split; lia.
Qed.

Section LocalMaxima.
Import Scipy.
Variable x : list Q.
Variable i_max : nat.
Hypothesis Himax : i_max = length x - 1.

Lemma scan_sound :
  ∀ fuel i m l r, 1 ≤ i →
    (m, l, r) ∈ scan_maxima fuel x i i_max →
    i ≤ l ∧ plateau_peak x l r ∧ m = Nat.div (l + r) 2.
Proof.
  induction fuel as [|fuel IH]; intros i m l r Hi Hin; simpl in Hin.
  - by apply elem_of_nil in Hin.
  - destruct (i <? i_max) eqn:Elt; [|by apply elem_of_nil in Hin].
    apply Nat.ltb_lt in Elt.
    destruct (Qltb (at_ x (i - 1)) (at_ x i)) eqn:Eup.
    + pose proof (skip_equal_spec x i_max (at_ x i) (i_max - (i + 1)) (i + 1))
        as Hsk.
      cbv zeta in Hsk.
      destruct Hsk as (Hr & Hk & _); [lia | lia |].
      set (i_ahead := skip_equal _ _ _ _ _) in *.
      destruct (Qltb (at_ x i_ahead) (at_ x i)) eqn:Edown.
      * apply elem_of_cons in Hin as [Heq | Hin].
        -- injection Heq as -> -> ->.
           apply Qltb_lt in Eup, Edown.
           split; [lia|]. split; [|done].
           unfold plateau_peak. repeat split; try lia; try done.
           ++ intros j Hj. destruct (decide (j = i)) as [->|]; [done|].
              apply Hk. lia.
           ++ replace (i_ahead - 1 + 1) with i_ahead by lia. done.
        -- apply IH in Hin as (? & ? & ?); [|lia]. split; [lia|done].
      * apply IH in Hin as (? & ? & ?); [|lia]. split; [lia|done].
    + apply IH in Hin as (? & ? & ?); [|lia]. split; [lia|done].
Qed.

Lemma scan_complete :
  ∀ fuel i l r, 1 ≤ i → i_max - i ≤ fuel → i ≤ l →
    plateau_peak x l r →
    (Nat.div (l + r) 2, l, r) ∈ scan_maxima fuel x i i_max.
Proof.
  induction fuel as [|fuel IH];
    intros i l r Hi Hfuel Hil Hpk;
    pose proof Hpk as (Hl1 & Hlr & Hrn & Hup & Hflat & Hdown).
  - lia.
  - simpl. assert ((i <? i_max) = true) as -> by (apply Nat.ltb_lt; lia).
    destruct (Qltb (at_ x (i - 1)) (at_ x i)) eqn:Eup.
    + pose proof (skip_equal_spec x i_max (at_ x i) (i_max - (i + 1)) (i + 1))
        as Hsk.
      cbv zeta in Hsk.
      destruct Hsk as (Hr & Hk & Hstop); [lia | lia |].
      set (i_ahead := skip_equal _ _ _ _ _) in *.
      assert (Hhere : l = i → i_ahead = r + 1).
      { intros ->.
        destruct (decide (i_ahead ≤ r)) as [Hle|Hgt].
        - exfalso. apply Hstop; [lia|]. apply Hflat. lia.
        - destruct (decide (i_ahead = r + 1)) as [|Hne]; [done|].
          exfalso. assert (at_ x (r + 1) == at_ x i)%Q as E by (apply Hk; lia).
          rewrite E in Hdown. by apply Qlt_irrefl in Hdown. }
      destruct (Qltb (at_ x i_ahead) (at_ x i)) eqn:Edown.
      * destruct (decide (l = i)) as [->|Hne].
        -- rewrite (Hhere eq_refl).
           replace (r + 1 - 1) with r by lia. apply list_elem_of_here.
        -- assert (i_ahead < l) as Hlater.
           { apply Qltb_lt in Edown.
             destruct (decide (i_ahead < l)) as [|Hge]; [lia|]. exfalso.
             assert (at_ x (l - 1) == at_ x i)%Q as E1.
             { destruct (decide (l - 1 = i)) as [->|]; [done|]. apply Hk. lia. }
             rewrite E1 in Hup.
             destruct (decide (l = i_ahead)) as [->|Hne'].
             - eapply Qlt_irrefl, Qlt_trans; eauto.
             - assert (at_ x l == at_ x i)%Q as E2 by (apply Hk; lia).
               rewrite E2 in Hup. by apply Qlt_irrefl in Hup. }
           apply list_elem_of_further. apply IH; [lia | lia | lia | done].
      * destruct (decide (l = i)) as [->|Hne].
        -- exfalso. rewrite (Hhere eq_refl) in Edown.
           apply Qltb_ge in Edown. by apply Qlt_not_le in Hdown.
        -- apply IH; try lia; done.
    + destruct (decide (l = i)) as [->|Hne].
      * apply Qltb_lt in Hup. congruence.
      * apply IH; try lia; done.
Qed.

Lemma scan_sorted :
  ∀ fuel i, 1 ≤ i →
    Forall (λ t, i ≤ mid_of t) (scan_maxima fuel x i i_max) ∧
    StronglySorted lt (map mid_of (scan_maxima fuel x i i_max)).
Proof.
  induction fuel as [|fuel IH]; intros i Hi; cbn [scan_maxima].
  - split; constructor.
  - destruct (i <? i_max) eqn:Elt; [|split; constructor].
    apply Nat.ltb_lt in Elt.
    assert (Hnext : Forall (λ t, i ≤ mid_of t) (scan_maxima fuel x (i + 1) i_max) ∧
      StronglySorted lt (map mid_of (scan_maxima fuel x (i + 1) i_max))).
    { destruct (IH (i + 1)) as [Hall Hs]; [lia|]. split; [|done].
      eapply Forall_impl; [exact Hall|]. simpl. intros; lia. }
    destruct (Qltb (at_ x (i - 1)) (at_ x i)); [|done].
    pose proof (skip_equal_spec x i_max (at_ x i) (i_max - (i + 1)) (i + 1))
      as Hsk.
    cbv zeta in Hsk. destruct Hsk as (Hr & _ & _); [lia | lia |].
    set (i_ahead := skip_equal _ _ _ _ _) in *.
    destruct (Qltb (at_ x i_ahead) (at_ x i)); [|done].
    destruct (IH (i_ahead + 1)) as [Hall Hs]; [lia|].
    assert (Hmid : i ≤ Nat.div (i + (i_ahead - 1)) 2 < i_ahead).
    { split.
      - apply Nat.div_le_lower_bound; lia.
      - apply Nat.Div0.div_lt_upper_bound. lia. }
    split.
    + constructor; [unfold mid_of; cbn [fst]; lia|].
      eapply Forall_impl; [exact Hall|]. cbn beta. intros; lia.
    + cbn [map]. constructor; [done|].
      apply Forall_fmap. eapply Forall_impl; [exact Hall|].
      intros t Ht. unfold compose, mid_of in *. cbn [fst] in *. lia.
Qed.

End LocalMaxima.

(** ** [find_peaks] *)

(** A plateau is reported at its midpoint; a rise that runs into the last
    sample is not a peak. *)
Example find_peaks_demo :
  Scipy.find_peaks [0; 5; 5; 5; 0; 7; 1; 2; 2; 9]%Q 1 = [2; 5].
Proof. reflexivity. Qed.

Lemma find_peaks_spec (x : list Q) (h : Q) (m : nat) :
  m ∈ Scipy.find_peaks x h ↔
  ∃ l r, plateau_peak x l r ∧ m = Nat.div (l + r) 2 ∧ (h <= Scipy.at_ x m)%Q.
Proof.
  unfold Scipy.find_peaks, Scipy.midpoints, Scipy.local_maxima_1d.
  rewrite list_elem_of_filter, Qleb_le. split.
  - intros [Hh Hin]. apply list_elem_of_fmap in Hin as ([[m' l] r] & -> & Hin).
    apply (scan_sound x _ eq_refl) in Hin as (_ & Hpk & ->); [|lia].
    exists l, r. done.
  - intros (l & r & Hpk & -> & Hh). split; [done|].
    apply list_elem_of_fmap. exists (Nat.div (l + r) 2, l, r). split; [done|].
    destruct Hpk as (? & ? & ? & ?).
    apply (scan_complete x _ eq_refl); try lia.
    unfold plateau_peak. done.
Qed.

Lemma StronglySorted_filter_lt (P : nat → Prop) `{!∀ n, Decision (P n)}
  (l : list nat) :
  StronglySorted lt l → StronglySorted lt (filter P l).
Proof.
  induction 1 as [|n l Hs IH Hall]; [constructor|].
  rewrite filter_cons. destruct (decide (P n)); [|done].
  constructor; [done|].
  apply Forall_forall. intros k [_ Hk]%list_elem_of_filter.
  rewrite Forall_forall in Hall. by apply Hall.
Qed.

Lemma find_peaks_sorted (x : list Q) (h : Q) :
  StronglySorted lt (Scipy.find_peaks x h).
Proof.
  unfold Scipy.find_peaks, Scipy.midpoints, Scipy.local_maxima_1d.
  apply StronglySorted_filter_lt.
  apply (scan_sorted x _ eq_refl). lia.
Qed.

Lemma plateau_mid (l r : nat) : l ≤ r → l ≤ Nat.div (l + r) 2 ≤ r.
Proof.
  intros. split.
  - apply Nat.div_le_lower_bound; lia.
  - apply Nat.Div0.div_le_upper_bound. lia.
Qed.

Lemma find_peaks_interior (x : list Q) (h : Q) (m : nat) :
  m ∈ Scipy.find_peaks x h → 0 < m ∧ m + 1 < length x.
Proof.
  intros (l & r & (? & ? & ? & _) & -> & _)%find_peaks_spec.
  pose proof (plateau_mid l r). lia.
Qed.

(** ** Positional indexing *)

Lemma iloc_spec {R} (rs : list R) (ps : list nat) (out : list R) :
  iloc rs ps = Ok out ↔ Forall2 (λ p r, rs !! p = Some r) ps out.
Proof.
  revert out. induction ps as [|p ps IH]; intros out; simpl.
  - split.
    + intros [= <-]. constructor.
    + intros ->%Forall2_nil_inv_l. done.
  - destruct (rs !! p) as [r|] eqn:E.
    + destruct (iloc rs ps) as [rest|e] eqn:Erest; simpl.
      * split.
        -- intros [= <-]. constructor; [done|]. by apply IH.
        -- intros (r' & out' & Hr & Hrest & ->)%Forall2_cons_inv_l.
           apply IH in Hrest. congruence.
      * split; [done|].
        intros (r' & out' & Hr & Hrest & ->)%Forall2_cons_inv_l.
        apply IH in Hrest. congruence.
    + split; [done|].
      intros (r' & out' & Hr & Hrest & ->)%Forall2_cons_inv_l. congruence.
Qed.

Lemma iloc_total {R} (rs : list R) (ps : list nat) :
  Forall (λ p, p < length rs) ps → ∃ out, iloc rs ps = Ok out.
Proof.
  induction 1 as [|p ps Hp _ [out IH]]; simpl; [by eexists|].
  destruct (lookup_lt_is_Some_2 rs p Hp) as [r ->].
  rewrite IH. simpl. by eexists.
Qed.

Lemma iloc_range_indexed (rs out : list Sample) (ps : list nat) :
  range_indexed rs → iloc rs ps = Ok out → map idx out = ps.
Proof.
  intros Hri Hil%iloc_spec.
  induction Hil as [|p r ps out Hr _ IH]; simpl; [done|].
  f_equal; [by apply Hri|done].
Qed.

(** ** Python's [max] *)

Lemma max_from_spec (l : list Q) : ∀ cur,
  (max_from cur l = cur ∨ max_from cur l ∈ l) ∧
  (cur <= max_from cur l)%Q ∧
  ∀ e, e ∈ l → (e <= max_from cur l)%Q.
Proof.
  induction l as [|y l IH]; intros cur; simpl.
  - split; [by left|]. split; [apply Qle_refl|].
    intros e He. by apply elem_of_nil in He.
  - destruct (IH (if Qltb cur y then y else cur)) as (Hsel & Hle & Hall).
    assert (cur <= (if Qltb cur y then y else cur))%Q as Hc.
    { destruct (Qltb cur y) eqn:E; [|apply Qle_refl].
      apply Qltb_lt in E. by apply Qlt_le_weak. }
    assert (y <= (if Qltb cur y then y else cur))%Q as Hy.
    { destruct (Qltb cur y) eqn:E; [apply Qle_refl|]. by apply Qltb_ge in E. }
    split; [|split].
    + destruct Hsel as [Hsel | Hsel].
      * rewrite Hsel. destruct (Qltb cur y); [right; left | by left].
      * right. by right.
    + eapply Qle_trans; eauto.
    + intros e [->|He]%elem_of_cons; [eapply Qle_trans; eauto | by apply Hall].
Qed.

Lemma py_max_spec (l : list Q) (m : Q) :
  py_max l = Ok m → m ∈ l ∧ ∀ e, e ∈ l → (e <= m)%Q.
Proof.
  destruct l as [|y l]; simpl; [done|]. intros [= <-].
  destruct (max_from_spec l y) as (Hsel & Hle & Hall). split.
  - destruct Hsel as [-> | Hsel]; [left | by right].
  - intros e [->|He]%elem_of_cons; [done | by apply Hall].
Qed.

(** ** [detecteer_Rpieken] *)

Lemma getitem_Ok {R A} (df : Frame R) (col : string) (f : R → A) :
  col ∈ columns df → getitem df col f = Ok (map f (rows df)).
Proof. intros H. unfold getitem. by rewrite bool_decide_eq_true_2. Qed.

Lemma getitem_inv {R A} (df : Frame R) (col : string) (f : R → A) v :
  getitem df col f = Ok v → col ∈ columns df ∧ v = map f (rows df).
Proof.
  unfold getitem. case_bool_decide; [|done]. by intros [= <-].
Qed.

Lemma detecteer_Rpieken_inv (df out : Frame Sample) (pct : Q) :
  detecteer_Rpieken df pct = Ok out →
  "ECG" ∈ columns df ∧ columns out = columns df ∧
  ∃ mx, py_max (map ECG (rows df)) = Ok mx ∧
    iloc (rows df) (Scipy.find_peaks (map ECG (rows df)) (pct * mx)) =
      Ok (rows out).
Proof.
  unfold detecteer_Rpieken. unfold mbind, result_bind.
  destruct (getitem df "ECG" ECG) as [ecg|] eqn:Eg; [|done].
  apply getitem_inv in Eg as [Hcol ->].
  destruct (py_max (map ECG (rows df))) as [mx|] eqn:Em; [|done].
  destruct (iloc _ _) as [rs|] eqn:Ei; [|done].
  intros [= <-]. simpl. eauto.
Qed.

Lemma detecteer_Rpieken_total (df : Frame Sample) (pct : Q) :
  "ECG" ∈ columns df → rows df ≠ [] →
  ∃ out, detecteer_Rpieken df pct = Ok out.
Proof.
  intros Hcol Hne. unfold detecteer_Rpieken.
  rewrite (getitem_Ok _ _ _ Hcol). unfold mbind, result_bind.
  destruct (py_max (map ECG (rows df))) as [mx|e] eqn:Em.
  - destruct (iloc_total (rows df)
      (Scipy.find_peaks (map ECG (rows df)) (pct * mx))) as [rs ->];
      [|by eexists].
    apply Forall_forall. intros m Hm%find_peaks_interior.
    rewrite length_map in Hm. lia.
  - destruct (rows df); [done|]. simpl in Em. done.
Qed.

Lemma range_indexed_ecg_frame (e : list Q) : range_indexed (rows (ecg_frame e)).
Proof.
  intros i s. simpl. rewrite list_lookup_imap.
  destruct (e !! i); simpl; [|done]. by intros [= <-].
Qed.

(** ** Peak positions (C10, C6) *)

Lemma detecteer_Rpieken_positions (df out : Frame Sample) (pct : Q) :
  range_indexed (rows df) →
  detecteer_Rpieken df pct = Ok out →
  ∃ mx, py_max (map ECG (rows df)) = Ok mx ∧
    map idx (rows out) = Scipy.find_peaks (map ECG (rows df)) (pct * mx) ∧
    Forall2 (λ m s, rows df !! m = Some s) (map idx (rows out)) (rows out).
Proof.
  intros Hri (_ & _ & mx & Hmx & Hil)%detecteer_Rpieken_inv.
  exists mx. split; [done|].
  pose proof (iloc_range_indexed _ _ _ Hri Hil) as Hidx.
  split; [done|]. rewrite Hidx. by apply iloc_spec.
Qed.

Lemma detecteer_Rpieken_rows (df out : Frame Sample) (pct : Q) (s : Sample) :
  range_indexed (rows df) →
  detecteer_Rpieken df pct = Ok out →
  s ∈ rows out →
  0 < idx s ∧ idx s + 1 < length (rows df) ∧ rows df !! idx s = Some s.
Proof.
  intros Hri Hdet Hs.
  destruct (detecteer_Rpieken_positions _ _ _ Hri Hdet) as (mx & _ & Hpos & Hrows).
  assert (idx s ∈ Scipy.find_peaks (map ECG (rows df)) (pct * mx)) as Hin.
  { rewrite <- Hpos. by apply list_elem_of_fmap_2. }
  apply find_peaks_interior in Hin. rewrite length_map in Hin.
  split; [lia|]. split; [lia|].
  apply list_elem_of_lookup in Hs as [k Hk].
  rewrite Forall2_lookup in Hrows. specialize (Hrows k).
  rewrite list_lookup_fmap, Hk in Hrows. simpl in Hrows.
  by inversion Hrows.
Qed.

(** C10: [find_peaks] never reports the first or the last position of the
    series, whatever the threshold; hence no row returned by
    [detecteer_Rpieken] is the first or the last sample of the table, even
    when that sample carries the maximum of the ECG channel. *)
Theorem C10_no_peak_at_either_end :
  (∀ (x : list Q) (h : Q) (m : nat),
     m ∈ Scipy.find_peaks x h → m ≠ 0 ∧ m ≠ length x - 1) ∧
  (∀ (df out : Frame Sample) (pct : Q) (s : Sample),
     range_indexed (rows df) →
     detecteer_Rpieken df pct = Ok out →
     s ∈ rows out →
     idx s ≠ 0 ∧ idx s ≠ length (rows df) - 1 ∧ rows df !! idx s = Some s).
Proof.
  split.
  - intros x h m Hm%find_peaks_interior. lia.
  - intros df out pct s Hri Hdet Hs.
    destruct (detecteer_Rpieken_rows df out pct s Hri Hdet Hs) as (? & ? & ?).
    repeat split; [lia | lia | done].
Qed.

(** The maximum 9 sits at both ends of the series; only the inner sample 5
    is reported. *)
Lemma C10_witness :
  let df := ecg_frame [9; 1; 5; 1; 9]%Q in
  let s := {| idx := 2; time := 2; ECG := 5; timestamp := elapsed 0 2;
              activiteit := None |} in
  detecteer_Rpieken df 0.5 = Ok {| columns := columns df; rows := [s] |} ∧
  idx s ≠ 0 ∧ idx s ≠ length (rows df) - 1 ∧ rows df !! idx s = Some s.
Proof.
  intros df s.
  assert (detecteer_Rpieken df 0.5 = Ok {| columns := columns df; rows := [s] |})
    as Hrun by (vm_compute; reflexivity).
  split; [exact Hrun|].
  apply (proj2 C10_no_peak_at_either_end df _ 0.5%Q s
           (range_indexed_ecg_frame _) Hrun).
  left.
Defined.

(** C6 (as amended): for a table with an ECG column and at least one row,
    [detecteer_Rpieken] takes [pct_drempel] times the largest ECG value as
    threshold and returns, in increasing order and without repetition,
    exactly the positions that are the midpoint (rounded down) of a run of
    equal samples with a strictly smaller sample on each side, not touching
    either end of the series, and whose value reaches the threshold. *)
Theorem C6_peaks_are_plateau_midpoints (df : Frame Sample) (pct : Q) :
  "ECG" ∈ columns df → rows df ≠ [] → range_indexed (rows df) →
  let ecg := map ECG (rows df) in
  ∃ out mx,
    detecteer_Rpieken df pct = Ok out ∧
    mx ∈ ecg ∧ (∀ e, e ∈ ecg → (e <= mx)%Q) ∧
    (∀ m, m ∈ map idx (rows out) ↔
       ∃ l r, plateau_peak ecg l r ∧ m = Nat.div (l + r) 2 ∧
              (pct * mx <= Scipy.at_ ecg m)%Q) ∧
    StronglySorted lt (map idx (rows out)) ∧
    Forall2 (λ m s, rows df !! m = Some s) (map idx (rows out)) (rows out).
Proof.
  intros Hcol Hne Hri ecg.
  destruct (detecteer_Rpieken_total df pct Hcol Hne) as [out Hout].
  destruct (detecteer_Rpieken_positions _ _ _ Hri Hout) as (mx & Hmx & Hpos & Hrows).
  destruct (py_max_spec _ _ Hmx) as [Hin Hub].
  exists out, mx. repeat split; try done.
  - rewrite Hpos. apply find_peaks_spec.
  - rewrite Hpos. apply find_peaks_spec.
  - rewrite Hpos. apply find_peaks_sorted.
Qed.

Lemma C6_witness :
  let df := ecg_frame [0; 5; 5; 5; 0; 7; 1]%Q in
  let ecg := map ECG (rows df) in
  ∃ out mx,
    detecteer_Rpieken df 0.6 = Ok out ∧
    mx ∈ ecg ∧ (∀ e, e ∈ ecg → (e <= mx)%Q) ∧
    (∀ m, m ∈ map idx (rows out) ↔
       ∃ l r, plateau_peak ecg l r ∧ m = Nat.div (l + r) 2 ∧
              (0.6 * mx <= Scipy.at_ ecg m)%Q) ∧
    StronglySorted lt (map idx (rows out)) ∧
    Forall2 (λ m s, rows df !! m = Some s) (map idx (rows out)) (rows out).
Proof.
  intros df ecg.
  apply (C6_peaks_are_plateau_midpoints df 0.6%Q).
  - vm_compute. do 1 right. left.
  - discriminate.
  - apply range_indexed_ecg_frame.
Defined.

(** C6 as stated fails.  In [0, 5, 5, 9, 0] the sample at position 1 is at
    least both neighbours, strictly above the left one and above the
    threshold, yet it is not reported.  In [0, 5, 5, 5, 0] the reported
    position 2 equals both its neighbours. *)
Lemma C6_counterexample :
  (let ecg := [0; 5; 5; 9; 0]%Q in
   detecteer_Rpieken (ecg_frame ecg) 0.5
     = Ok {| columns := columns (ecg_frame ecg);
             rows := [{| idx := 3; time := 3; ECG := 9;
                         timestamp := elapsed 0 3; activiteit := None |}] |} ∧
   weak_local_max ecg 1 ∧ (0.5 * 9 <= Scipy.at_ ecg 1)%Q ∧
   1 ∉ Scipy.find_peaks ecg (0.5 * 9)) ∧
  (let ecg := [0; 5; 5; 5; 0]%Q in
   detecteer_Rpieken (ecg_frame ecg) 1
     = Ok {| columns := columns (ecg_frame ecg);
             rows := [{| idx := 2; time := 2; ECG := 5;
                         timestamp := elapsed 0 2; activiteit := None |}] |} ∧
   ¬ weak_local_max ecg 2).
Proof.
  split; intros ecg.
  - split; [vm_compute; reflexivity|].
    split; [|split].
    + unfold weak_local_max. simpl.
      repeat split; try lia; try (apply Qleb_le; reflexivity).
      left. apply Qltb_lt. reflexivity.
    + apply Qleb_le. reflexivity.
    + vm_compute. intros H. inversion H as [|? ? ? H']. inversion H'.
  - split; [vm_compute; reflexivity|].
    intros (_ & _ & _ & _ & [H|H]); apply Qltb_lt in H; discriminate H.
Qed.

(** ** Binning with [pd.cut] *)

Lemma searchsorted_left_bound (bins : list Q) (t : Q) :
  searchsorted_left bins t ≤ length bins.
Proof.
  induction bins as [|b bins IH]; simpl; [lia|].
  destruct (Qltb b t); lia.
Qed.

Lemma searchsorted_left_below (bins : list Q) (t : Q) :
  ∀ j b, j < searchsorted_left bins t → bins !! j = Some b → (b < t)%Q.
Proof.
  induction bins as [|b0 bins IH]; simpl; intros j b Hj Hb; [lia|].
  destruct (Qltb b0 t) eqn:E; [|lia].
  destruct j as [|j]; simpl in Hb.
  - injection Hb as <-. by apply Qltb_lt.
  - eapply IH; [|done]. lia.
Qed.

Lemma searchsorted_left_stop (bins : list Q) (t : Q) :
  ∀ b, bins !! searchsorted_left bins t = Some b → (t <= b)%Q.
Proof.
  induction bins as [|b0 bins IH]; simpl; intros b Hb; [done|].
  destruct (Qltb b0 t) eqn:E; simpl in Hb.
  - by apply IH.
  - injection Hb as <-. by apply Qltb_ge.
Qed.

Lemma searchsorted_left_sorted (bins : list Q) (t : Q) :
  StronglySorted Qlt bins →
  ∀ j b, bins !! j = Some b → (b < t)%Q → j < searchsorted_left bins t.
Proof.
  induction 1 as [|b0 bins Hs IH Hall]; simpl; intros j b Hb Hlt; [done|].
  destruct (Qltb b0 t) eqn:E.
  - destruct j as [|j]; [lia|]. simpl in Hb.
    specialize (IH j b Hb Hlt). lia.
  - exfalso. apply Qltb_ge in E.
    destruct j as [|j]; simpl in Hb.
    + injection Hb as <-. by apply Qlt_not_le in Hlt.
    + rewrite Forall_forall in Hall.
      assert (b0 < b)%Q as Hb0.
      { apply Hall. apply list_elem_of_lookup. eauto. }
      apply (Qlt_irrefl b0). eapply Qlt_le_trans; [exact Hb0|].
      eapply Qle_trans; [|exact E]. by apply Qlt_le_weak.
Qed.

Lemma sorted_is_monotonic (bins : list Q) :
  StronglySorted Qlt bins →
  is_monotonic_increasing bins = true ∧ has_duplicates bins = false.
Proof.
  induction 1 as [|a bins Hs [IHm IHd] Hall]; [done|].
  destruct bins as [|b bins]; [done|].
  apply Forall_cons in Hall as [Hab _].
  change (is_monotonic_increasing (a :: b :: bins))
    with (Qleb a b && is_monotonic_increasing (b :: bins)).
  change (has_duplicates (a :: b :: bins))
    with (Qeq_bool a b || has_duplicates (b :: bins)).
  rewrite IHm, IHd.
  split.
  - rewrite andb_true_r. apply Qleb_le. by apply Qlt_le_weak.
  - rewrite orb_false_r. destruct (Qeq_bool a b) eqn:E; [|done].
    apply Qeq_bool_iff in E. rewrite E in Hab. by apply Qlt_irrefl in Hab.
Qed.

Lemma cut_Ok (x bins : list Q) (labels : list string) :
  StronglySorted Qlt bins → length bins = S (length labels) →
  cut x bins labels = Ok (map (cut1 bins labels) x).
Proof.
  intros [Hm Hd]%sorted_is_monotonic Hlen. unfold cut.
  rewrite Hm, Hd, Hlen. simpl.
  replace (length labels - 0) with (length labels) by lia.
  by rewrite Nat.eqb_refl.
Qed.

Lemma cut1_inside (bins : list Q) (labels : list string) (t b0 bn : Q) :
  StronglySorted Qlt bins → length bins = S (length labels) →
  bins !! 0 = Some b0 → last bins = Some bn → (b0 < t <= bn)%Q →
  ∃ i lo hi lab,
    bins !! i = Some lo ∧ bins !! (S i) = Some hi ∧ labels !! i = Some lab ∧
    (lo < t <= hi)%Q ∧ cut1 bins labels t = Some lab ∧
    ∀ j lo' hi', bins !! j = Some lo' → bins !! (S j) = Some hi' →
                 (lo' < t <= hi')%Q → j = i.
Proof.
  intros Hs Hlen H0 Hlast [Hlo Hhi].
  rewrite last_lookup in Hlast.
  set (k := searchsorted_left bins t).
  assert (0 < k) as Hk0 by (eapply searchsorted_left_sorted; eauto).
  assert (k < length bins) as Hkn.
  { pose proof (searchsorted_left_bound bins t). fold k in H.
    destruct (decide (k = length bins)) as [Hk|]; [|lia]. exfalso.
    assert (bn < t)%Q.
    { eapply (searchsorted_left_below bins t); [|exact Hlast]. fold k. lia. }
    by apply Qlt_not_le in H1. }
  destruct (lookup_lt_is_Some_2 bins (k - 1)) as [lo Elo]; [lia|].
  destruct (lookup_lt_is_Some_2 bins k) as [hi Ehi]; [lia|].
  destruct (lookup_lt_is_Some_2 labels (k - 1)) as [lab Elab]; [lia|].
  exists (k - 1), lo, hi, lab.
  replace (S (k - 1)) with k by lia.
  split; [done|]. split; [done|]. split; [done|]. split; [|split].
  - split.
    + eapply (searchsorted_left_below bins t); [|exact Elo]. fold k. lia.
    + by apply (searchsorted_left_stop bins t).
  - unfold cut1. fold k.
    destruct (Nat.eqb_spec k (length bins)); [lia|].
    destruct (Nat.eqb_spec k 0); [lia|]. done.
  - intros j lo' hi' Ej Ej' [Hlo' Hhi'].
    assert (j < k) by (eapply searchsorted_left_sorted; eauto).
    destruct (decide (S j < k)) as [Hlt|]; [|lia]. exfalso.
    assert (hi' < t)%Q by (eapply (searchsorted_left_below bins t); eauto).
    by apply Qlt_not_le in H1.
Qed.

Lemma cut1_outside (bins : list Q) (labels : list string) (t b0 bn : Q) :
  is_monotonic_increasing bins = true →
  bins !! 0 = Some b0 → last bins = Some bn → (t <= b0)%Q ∨ (bn < t)%Q →
  cut1 bins labels t = None.
Proof.
  intros Hm H0 Hlast [Hlow | Hhigh]; unfold cut1.
  - destruct bins as [|b bins]; [done|]. injection H0 as ->. simpl.
    apply Qltb_ge in Hlow. rewrite Hlow. done.
  - assert (searchsorted_left bins t = length bins) as ->;
      [|by rewrite Nat.eqb_refl].
    clear H0. revert Hm Hlast.
    induction bins as [|a bins IH]; [done|]. intros Hm Hlast.
    destruct bins as [|b bins].
    + simpl in Hlast. injection Hlast as ->.
      apply Qltb_lt in Hhigh. simpl. by rewrite Hhigh.
    + change (is_monotonic_increasing (a :: b :: bins))
        with (Qleb a b && is_monotonic_increasing (b :: bins)) in Hm.
      apply andb_true_iff in Hm as [Hab Hm]. apply Qleb_le in Hab.
      specialize (IH Hm Hlast).
      assert (b < t)%Q as Hb.
      { cbn [searchsorted_left] in IH.
        destruct (Qltb b t) eqn:E; [by apply Qltb_lt|]. simpl in IH. lia. }
      assert (Qltb a t = true) as Ha.
      { apply Qltb_lt. eapply Qle_lt_trans; eauto. }
      change (searchsorted_left (a :: b :: bins) t)
        with (if Qltb a t then S (searchsorted_left (b :: bins) t) else 0).
      rewrite Ha, IH. done.
Qed.

(** The table written by [initialize_data] is a valid argument of [cut]. *)
Lemma intervallen_sorted : StronglySorted Qlt (map inject_Z intervallen).
Proof.
  unfold intervallen. simpl.
  repeat (constructor; [|repeat (constructor; [reflexivity|]); constructor]).
  constructor.
Qed.

Lemma intervallen_length : length (map inject_Z intervallen) = S (length activiteiten).
Proof. reflexivity. Qed.

(** C1 (as amended): bins are left-open and right-closed.  For boundaries
    in strictly increasing order with one label per interval, every [t] with
    [b[0] < t <= b[last]] receives exactly one label, that of the unique
    interval [i] with [b[i] < t <= b[i+1]]. *)
Theorem C1_right_closed_interval_label
  (bins : list Q) (labels : list string) (t b0 bn : Q) :
  StronglySorted Qlt bins → length bins = S (length labels) →
  bins !! 0 = Some b0 → last bins = Some bn → (b0 < t <= bn)%Q →
  ∃ i lo hi lab,
    bins !! i = Some lo ∧ bins !! (S i) = Some hi ∧ labels !! i = Some lab ∧
    (lo < t <= hi)%Q ∧
    cut [t] bins labels = Ok [Some lab] ∧
    ∀ j lo' hi', bins !! j = Some lo' → bins !! (S j) = Some hi' →
                 (lo' < t <= hi')%Q → j = i.
Proof.
  intros Hs Hlen H0 Hlast Ht.
  destruct (cut1_inside bins labels t b0 bn Hs Hlen H0 Hlast Ht)
    as (i & lo & hi & lab & Hi & HSi & Hlab & Hin & Hcut & Huniq).
  exists i, lo, hi, lab. repeat split; try done; try apply Hin.
  rewrite (cut_Ok _ _ _ Hs Hlen). simpl. by rewrite Hcut.
Qed.

Lemma C1_witness :
  ∃ i lo hi lab,
    [0; 10; 20]%Q !! i = Some lo ∧ [0; 10; 20]%Q !! (S i) = Some hi ∧
    ["sitting"; "walking"] !! i = Some lab ∧
    (lo < 10 <= hi)%Q ∧
    cut [10%Q] [0; 10; 20]%Q ["sitting"; "walking"] = Ok [Some lab] ∧
    ∀ j lo' hi', [0; 10; 20]%Q !! j = Some lo' →
                 [0; 10; 20]%Q !! (S j) = Some hi' →
                 (lo' < 10 <= hi')%Q → j = i.
Proof.
  apply (C1_right_closed_interval_label
           [0; 10; 20]%Q ["sitting"; "walking"] 10%Q 0%Q 20%Q).
  - repeat (constructor; [|repeat (constructor; [reflexivity|]); constructor]).
    constructor.
  - reflexivity.
  - reflexivity.
  - reflexivity.
  - split; [reflexivity | discriminate].
Defined.

(** C1 as stated fails: with boundaries [0, 10, 20] a sample at elapsed 10.0
    lies in [b[1], b[2]) but gets the label of interval 0, and a sample at
    elapsed 0 lies in [b[0], b[1]) but gets no label.  The same holds in the
    table of the program at 120 s. *)
Lemma C1_counterexample :
  let bins := [0; 10; 20]%Q in
  let labels := ["sitting"; "walking"] in
  (10 <= 10 < 20)%Q ∧ labels !! 1 = Some "walking" ∧
  cut [10%Q] bins labels = Ok [Some "sitting"] ∧
  (0 <= 0 < 10)%Q ∧
  cut [0%Q] bins labels = Ok [None] ∧
  (120 <= 120 < 240)%Q ∧ activiteiten !! 1 = Some "lopen" ∧
  cut [120%Q] (map inject_Z intervallen) activiteiten = Ok [Some "zitten"].
Proof.
  repeat split; try reflexivity; try discriminate.
Qed.

(** The scenario of the design document under the binning the program uses. *)
Example cut_scenario :
  cut [10; 9.999; 10.001; 25]%Q [0; 10; 20]%Q ["sitting"; "walking"]
  = Ok [Some "sitting"; Some "sitting"; Some "walking"; None].
Proof. reflexivity. Qed.

(** C7 (as amended): a value at or before the first boundary, or strictly
    beyond the last one, gets no label ([NaN]); [cut] raises nothing. *)
Theorem C7_unlabeled_outside
  (bins : list Q) (labels : list string) (t b0 bn : Q) :
  StronglySorted Qlt bins → length bins = S (length labels) →
  bins !! 0 = Some b0 → last bins = Some bn →
  (t <= b0)%Q ∨ (bn < t)%Q →
  cut [t] bins labels = Ok [None].
Proof.
  intros Hs Hlen H0 Hlast Ht.
  rewrite (cut_Ok _ _ _ Hs Hlen). simpl.
  rewrite (cut1_outside bins labels t b0 bn); try done.
  by apply sorted_is_monotonic.
Qed.

Lemma C7_witness :
  cut [7321%Q] (map inject_Z intervallen) activiteiten = Ok [None].
Proof.
  apply (C7_unlabeled_outside (map inject_Z intervallen) activiteiten
           7321%Q 0%Q 7320%Q).
  - apply intervallen_sorted.
  - apply intervallen_length.
  - reflexivity.
  - reflexivity.
  - right. reflexivity.
Defined.

(** C7 as stated fails at the final boundary itself: the value 20 with
    boundaries [0, 10, 20] is labelled, and so is 7320 s in the table of
    the program. *)
Lemma C7_counterexample :
  last [0; 10; 20]%Q = Some 20%Q ∧
  cut [20%Q] [0; 10; 20]%Q ["sitting"; "walking"] = Ok [Some "walking"] ∧
  last (map inject_Z intervallen) = Some 7320%Q ∧
  cut [7320%Q] (map inject_Z intervallen) activiteiten = Ok [Some "zitten"].
Proof. repeat split; reflexivity. Qed.

(** ** Beat intervals *)

Lemma derive_after (prev : Sample) (ps : list Sample) :
  filter (λ b, notna (rr b) = true)
    (assemble_beats ps
       (diff_from (timestamp prev) (map timestamp ps))
       (map (fdiv_pos 60) (diff_from (timestamp prev) (map timestamp ps)))
       (rolling2_from (timestamp prev) (map timestamp ps)))
  = beats_after prev ps.
Proof.
  revert prev. induction ps as [|p ps IH]; intros prev; [done|].
  cbn [map diff_from rolling2_from assemble_beats beats_after].
  rewrite filter_cons_True by done. by rewrite IH.
Qed.

Lemma derive_beats_unfold (ps : list Sample) :
  derive_beats ps (map timestamp ps) =
  match ps with
  | [] => []
  | p :: tl => beats_after p tl
  end.
Proof.
  destruct ps as [|p tl]; [done|].
  unfold derive_beats.
  cbn [map diff rolling2_mean assemble_beats].
  rewrite filter_cons_False by (simpl; congruence).
  apply derive_after.
Qed.

Lemma beats_after_length (prev : Sample) (ps : list Sample) :
  length (beats_after prev ps) = length ps.
Proof.
  revert prev. induction ps as [|p ps IH]; intros prev; simpl; [done|].
  by rewrite IH.
Qed.

Lemma beats_after_lookup (prev : Sample) (ps : list Sample) :
  ∀ i p q, (prev :: ps) !! i = Some p → ps !! i = Some q →
    beats_after prev ps !! i =
      Some {| sample := q;
              rr := Num (timestamp q - timestamp p);
              bpm := fdiv_pos 60 (Num (timestamp q - timestamp p));
              gemiddelde_tijd := Num ((timestamp p + timestamp q) / 2) |}.
Proof.
  revert prev. induction ps as [|a ps IH]; intros prev i p q Hp Hq; [done|].
  destruct i as [|i]; simpl in *.
  - by injection Hp as <-; injection Hq as <-.
  - by apply IH.
Qed.

Lemma beats_after_elem (prev : Sample) (ps : list Sample) (b : Beat) :
  b ∈ beats_after prev ps →
  ∃ r, rr b = Num r ∧ bpm b = fdiv_pos 60 (Num r) ∧
    (StronglySorted Qlt (map timestamp (prev :: ps)) → (0 < r)%Q).
Proof.
  revert prev. induction ps as [|a ps IH]; intros prev Hb; simpl in Hb.
  - by apply elem_of_nil in Hb.
  - apply elem_of_cons in Hb as [-> | Hb].
    + eexists. split; [reflexivity|]. split; [reflexivity|].
      intros Hs. simpl in Hs. apply StronglySorted_inv in Hs as [_ Hall].
      apply Forall_cons in Hall as [Hlt _].
      unfold Qminus. by rewrite <- Qlt_minus_iff.
    + destruct (IH a Hb) as (r & Hrr & Hbpm & Hpos).
      exists r. split; [done|]. split; [done|].
      intros Hs. apply Hpos. simpl in Hs.
      by apply StronglySorted_inv in Hs as [? _].
Qed.

(** C5: for each peak after the first, [rr] is the difference of its
    elapsed time and the previous one, [bpm] is 60 divided by [rr] and
    [gemiddelde_tijd] is the mean of the two elapsed times; the first peak
    is not in the output, which therefore has one row less than there are
    peaks.  Peaks at 1.0, 1.8 and 2.7 s give two beats with intervals 0.8
    and 0.9 s and rates 75 and 66.67 (rounded) per minute. *)
Theorem C5_beat_intervals (ps : list Sample) :
  let out := derive_beats ps (map timestamp ps) in
  length out = length ps - 1 ∧
  (∀ i p q, ps !! i = Some p → ps !! S i = Some q →
     ∃ b g, out !! i = Some b ∧ sample b = q ∧
       rr b = Num (timestamp q - timestamp p) ∧
       bpm b = fdiv_pos 60 (rr b) ∧
       (¬ (timestamp q - timestamp p == 0)%Q →
        bpm b = Num (60 / (timestamp q - timestamp p))) ∧
       gemiddelde_tijd b = Num g ∧
       (g == (timestamp q + timestamp p) / 2)%Q) ∧
  (map timestamp ps = [1; 1.8; 2.7]%Q →
     ∃ b1 b2 r1 v1 r2 v2, out = [b1; b2] ∧
       rr b1 = Num r1 ∧ (r1 == 0.8)%Q ∧ bpm b1 = Num v1 ∧ (v1 == 75)%Q ∧
       rr b2 = Num r2 ∧ (r2 == 0.9)%Q ∧ bpm b2 = Num v2 ∧
       (66.66 < v2 < 66.67)%Q).
Proof.
  intros out. subst out. rewrite derive_beats_unfold.
  split; [|split].
  - destruct ps as [|p0 tl]; simpl; [done|].
    rewrite beats_after_length. lia.
  - intros i p q Hp Hq. destruct ps as [|p0 tl]; [done|].
    simpl in Hq.
    rewrite (beats_after_lookup p0 tl i p q Hp Hq).
    eexists _, _. split; [reflexivity|]. cbn [sample rr bpm gemiddelde_tijd].
    split; [done|]. split; [done|]. split; [done|]. split; [|split; [done|]].
    + intros Hnz. unfold fdiv_pos.
      destruct (Qeq_bool _ 0) eqn:E; [|done].
      by apply Qeq_bool_iff in E.
    + apply Qdiv_comp; [apply Qplus_comm | reflexivity].
  - intros Hts.
    destruct ps as [|a [|b [|c [|d ps]]]]; try discriminate Hts.
    injection Hts as Ha Hb Hc.
    cbn [beats_after]. rewrite Ha, Hb, Hc.
    eexists _, _, _, _, _, _. split; [reflexivity|].
    cbn [rr bpm].
    split; [reflexivity|]. split; [reflexivity|].
    split; [reflexivity|]. split; [reflexivity|].
    split; [reflexivity|]. split; [reflexivity|].
    split; [reflexivity|]. split; reflexivity.
Qed.

Lemma C5_witness :
  let s t := {| idx := 0; time := 0; ECG := 1; timestamp := t;
                activiteit := None |} in
  let ps := [s 1%Q; s 1.8%Q; s 2.7%Q] in
  ∃ b1 b2 r1 v1 r2 v2,
    derive_beats ps (map timestamp ps) = [b1; b2] ∧
    rr b1 = Num r1 ∧ (r1 == 0.8)%Q ∧ bpm b1 = Num v1 ∧ (v1 == 75)%Q ∧
    rr b2 = Num r2 ∧ (r2 == 0.9)%Q ∧ bpm b2 = Num v2 ∧
    (66.66 < v2 < 66.67)%Q.
Proof.
  intros s ps.
  apply (proj2 (proj2 (C5_beat_intervals ps))).
  reflexivity.
Defined.

Lemma unfiltered_after (prev : Sample) (ps : list Sample) :
  let full := assemble_beats ps
                (diff_from (timestamp prev) (map timestamp ps))
                (map (fdiv_pos 60) (diff_from (timestamp prev) (map timestamp ps)))
                (rolling2_from (timestamp prev) (map timestamp ps)) in
  length full = length ps ∧
  ∀ j b, full !! j = Some b → ∃ r, rr b = Num r.
Proof.
  revert prev. induction ps as [|p ps IH]; intros prev; [done|].
  cbn [map diff_from rolling2_from assemble_beats].
  destruct (IH p) as [Hlen Hnum]. split; [simpl; by rewrite Hlen|].
  intros [|j] b Hb; simpl in Hb.
  - injection Hb as <-. by eexists.
  - by eapply Hnum.
Qed.

(** C2 (as amended): only the row of the first peak, whose [rr] is NaN, is
    removed.  Before the filter the table has one row per peak and [rr] is
    NaN in its first row only; a row is retained exactly when its [rr] is
    not NaN, so the output has one row less than there are peaks.  Every
    peak after the first yields a retained beat whatever its interval, with
    [bpm = 60 / rr] in float division: a beat at the same elapsed time as
    its predecessor is retained with [rr = 0] and [bpm = +inf].  When the
    elapsed times of the peaks increase strictly, every retained beat has
    [rr > 0] and [bpm] is the number [60 / rr]. *)
Theorem C2_only_nan_dropped (ps : list Sample) :
  let ts := map timestamp ps in
  let full := assemble_beats ps (diff ts) (map (fdiv_pos 60) (diff ts))
                (rolling2_mean ts) in
  let out := derive_beats ps ts in
  (length full = length ps ∧
   ∀ i b, full !! i = Some b →
     (rr b = NaN ↔ i = 0) ∧ (b ∈ out ↔ rr b ≠ NaN)) ∧
  length out = length ps - 1 ∧
  (∀ i p q, ps !! i = Some p → ps !! S i = Some q →
     ∃ b, out !! i = Some b ∧ sample b = q ∧
       rr b = Num (timestamp q - timestamp p) ∧
       bpm b = (if Qeq_bool (timestamp q - timestamp p) 0 then Inf
                else Num (60 / (timestamp q - timestamp p))) ∧
       ((timestamp q == timestamp p)%Q → bpm b = Inf)) ∧
  (∀ b, b ∈ out →
     ∃ r, rr b = Num r ∧
       bpm b = (if Qeq_bool r 0 then Inf else Num (60 / r)) ∧
       (StronglySorted Qlt (map timestamp ps) →
          (0 < r)%Q ∧ bpm b = Num (60 / r))).
Proof.
  intros ts full out. split; [|split; [|split]].
  - subst full out ts. destruct ps as [|p0 tl]; [done|].
    cbn [map diff rolling2_mean assemble_beats].
    destruct (unfiltered_after p0 tl) as [Hlen Hnum]. cbv zeta in Hlen, Hnum.
    split; [simpl; by rewrite Hlen|].
    intros i b Hb.
    assert (rr b = NaN ↔ i = 0) as Hnan.
    { destruct i as [|j]; simpl in Hb.
      - injection Hb as <-. done.
      - destruct (Hnum j b Hb) as [r Hr]. rewrite Hr. split; [done|lia]. }
    split; [done|].
    unfold derive_beats. cbn [map diff rolling2_mean assemble_beats].
    rewrite list_elem_of_filter. split.
    + intros [Hkeep _] Hrr. rewrite Hrr in Hkeep. done.
    + intros Hrr. split; [by destruct (rr b)|].
      apply list_elem_of_lookup. eauto.
  - subst out ts. rewrite derive_beats_unfold.
    destruct ps as [|p0 tl]; simpl; [done|].
    rewrite beats_after_length. lia.
  - intros i p q Hp Hq. subst out ts. rewrite derive_beats_unfold.
    destruct ps as [|p0 tl]; [done|]. simpl in Hq.
    rewrite (beats_after_lookup p0 tl i p q Hp Hq).
    eexists. split; [reflexivity|]. cbn [sample rr bpm fdiv_pos].
    split; [done|]. split; [done|]. split; [done|].
    intros Heq.
    assert (Qeq_bool (timestamp q - timestamp p) 0 = true) as ->; [|done].
    apply Qeq_bool_iff. rewrite Heq. ring.
  - intros b. subst out ts. rewrite derive_beats_unfold.
    destruct ps as [|p tl].
    + intros H. by apply elem_of_nil in H.
    + intros (r & Hrr & Hbpm & Hpos)%beats_after_elem.
      exists r. split; [done|]. split; [done|].
      intros Hs. specialize (Hpos Hs). split; [done|].
      rewrite Hbpm. simpl. destruct (Qeq_bool r 0) eqn:E; [|done].
      apply Qeq_bool_iff in E. rewrite E in Hpos. by apply Qlt_irrefl in Hpos.
Qed.

(** Two peaks at the same elapsed time: the second is retained with
    [rr = 0] and an infinite rate. *)
Lemma C2_witness :
  let s i := {| idx := i; time := 7; ECG := 5; timestamp := elapsed 0 7;
                activiteit := Some "zitten" |} in
  let p := s 1 in
  let q := s 3 in
  let ps := [p; q] in
  ∃ b, derive_beats ps (map timestamp ps) !! 0 = Some b ∧ sample b = q ∧
    rr b = Num (timestamp q - timestamp p) ∧
    bpm b = (if Qeq_bool (timestamp q - timestamp p) 0 then Inf
             else Num (60 / (timestamp q - timestamp p))) ∧
    ((timestamp q == timestamp p)%Q → bpm b = Inf).
Proof.
  intros s p q ps.
  apply (proj1 (proj2 (proj2 (C2_only_nan_dropped ps))) 0 p q);
    reflexivity.
Defined.

(** C2 as stated fails: two peaks at distinct positions with the same tick
    value give [rr = 0]; the row is retained and its [bpm] is +inf. *)
Lemma C2_counterexample :
  ∃ df beats b r,
    process (Ok (raw_frame [(0%Z, 0%Q); (7%Z, 5%Q); (7%Z, 0%Q); (7%Z, 5%Q); (9%Z, 0%Q)]))
      intervallen activiteiten rpieken_drempel = Ok (df, beats) ∧
    rows beats = [b] ∧ idx (sample b) = 3 ∧
    rr b = Num r ∧ ¬ (0 < r)%Q ∧ bpm b = Inf.
Proof.
  do 4 eexists. split; [vm_compute; reflexivity|].
  split; [reflexivity|]. split; [reflexivity|]. split; [reflexivity|].
  split; [|reflexivity]. intros H. discriminate H.
Qed.

(** ** The [try] block as a whole *)

Lemma cut_inv (x bins : list Q) (labels : list string) act :
  cut x bins labels = Ok act → act = map (cut1 bins labels) x.
Proof.
  unfold cut.
  destruct (negb (is_monotonic_increasing bins)); [done|].
  destruct (has_duplicates bins && negb (length bins =? 2)); [done|].
  destruct (negb (length labels =? length bins - 1)); [done|].
  by intros [= <-].
Qed.

Lemma assemble_lookup (raw : list RawRow) (ts : list Q)
  (act : list (option string)) :
  ∀ i k s, assemble i raw ts act !! k = Some s →
    idx s = i + k ∧ ts !! k = Some (timestamp s) ∧
    act !! k = Some (activiteit s) ∧
    ∃ r, raw !! k = Some r ∧ time s = raw_time r ∧ ECG s = raw_ECG r.
Proof.
  revert ts act. induction raw as [|r raw IH]; intros ts act i k s Hk; [done|].
  destruct ts as [|t ts]; [done|]. destruct act as [|a act]; [done|].
  destruct k as [|k]; simpl in Hk.
  - injection Hk as <-. simpl. split; [lia|].
    split; [done|]. split; [done|]. by exists r.
  - apply IH in Hk as (Hidx & Hts & Hact & Hraw). simpl.
    split; [lia|]. done.
Qed.

Lemma assemble_length (raw : list RawRow) (f : Z → Q) (c : Q → option string) :
  ∀ i, length (assemble i raw (map f (map raw_time raw))
                 (map c (map f (map raw_time raw)))) = length raw.
Proof.
  induction raw as [|r raw IH]; intros i; simpl; [done|]. by rewrite IH.
Qed.

Lemma assemble_range_indexed raw ts act : range_indexed (assemble 0 raw ts act).
Proof. intros k s Hk. by apply assemble_lookup in Hk as (-> & _). Qed.

Lemma with_column_here (cols : list string) (c : string) :
  c ∈ with_column cols c.
Proof.
  unfold with_column. case_bool_decide; [done|].
  apply elem_of_app. right. left.
Qed.

Lemma with_column_keeps (cols : list string) (c c' : string) :
  c ∈ cols → c ∈ with_column cols c'.
Proof.
  intros Hin. unfold with_column. case_bool_decide; [done|].
  apply elem_of_app. by left.
Qed.

Lemma with_column_inv (cols : list string) (c c' : string) :
  c ∈ with_column cols c' → c ≠ c' → c ∈ cols.
Proof.
  unfold with_column. case_bool_decide; [done|].
  intros [Hin|Hin]%elem_of_app Hne; [done|].
  apply list_elem_of_singleton in Hin. done.
Qed.

Lemma assemble_beats_sample (ps : list Sample) :
  ∀ rrs bpms gem b, b ∈ assemble_beats ps rrs bpms gem → sample b ∈ ps.
Proof.
  induction ps as [|p ps IH]; intros rrs bpms gem b Hb; simpl in Hb.
  - by apply elem_of_nil in Hb.
  - destruct rrs as [|r rrs]; [by apply elem_of_nil in Hb|].
    destruct bpms as [|v bpms]; [by apply elem_of_nil in Hb|].
    destruct gem as [|g gem]; [by apply elem_of_nil in Hb|].
    apply elem_of_cons in Hb as [-> | Hb]; [left|right]. by eapply IH.
Qed.

Lemma derive_beats_sample (ps : list Sample) (ts : list Q) (b : Beat) :
  b ∈ derive_beats ps ts → sample b ∈ ps.
Proof.
  unfold derive_beats. intros [_ Hb]%list_elem_of_filter.
  by eapply assemble_beats_sample.
Qed.

Lemma process_inv (file : File) (bins : list Z) (labels : list string)
  (thr : Q) (df_ecg : Frame Sample) (df_pk : Frame Beat) :
  process file bins labels thr = Ok (df_ecg, df_pk) →
  ∃ df t0 pk,
    file = Ok df ∧ "time" ∈ columns df ∧
    iloc0 (map raw_time (rows df)) = Ok t0 ∧
    rows df_ecg =
      assemble 0 (rows df) (map (elapsed t0) (map raw_time (rows df)))
        (map (cut1 (map inject_Z bins) labels)
           (map (elapsed t0) (map raw_time (rows df)))) ∧
    detecteer_Rpieken df_ecg thr = Ok pk ∧
    rows df_pk = derive_beats (rows pk) (map timestamp (rows pk)).
Proof.
  unfold process. unfold mbind, result_bind.
  destruct file as [df|]; [|done].
  destruct (getitem df "time" raw_time) as [t|] eqn:Et; [|done].
  apply getitem_inv in Et as [Hcol ->].
  destruct (iloc0 _) as [t0|] eqn:E0; [|done].
  destruct (cut _ _ _) as [act|] eqn:Ec; [|done].
  apply cut_inv in Ec as ->.
  destruct (detecteer_Rpieken _ _) as [pk|] eqn:Ed; [|done].
  destruct (getitem pk "timestamp" timestamp) as [tsp|] eqn:Ep; [|done].
  apply getitem_inv in Ep as [_ ->].
  intros [= <- <-]. exists df, t0, pk. done.
Qed.

(** C9: every beat row carries the row of the sample at its position in
    [df_ecg], so the label of the beat is the label of that sample, and it
    is the label [cut] gives to the beat's elapsed time. *)
Theorem C9_beat_label_is_sample_label
  (file : File) (bins : list Z) (labels : list string) (thr : Q)
  (df_ecg : Frame Sample) (df_pk : Frame Beat) (b : Beat) :
  process file bins labels thr = Ok (df_ecg, df_pk) →
  b ∈ rows df_pk →
  rows df_ecg !! idx (sample b) = Some (sample b) ∧
  (∀ s, rows df_ecg !! idx (sample b) = Some s →
        activiteit (sample b) = activiteit s) ∧
  activiteit (sample b) =
    cut1 (map inject_Z bins) labels (timestamp (sample b)).
Proof.
  intros (df & t0 & pk & _ & _ & _ & Hrows & Hdet & Hbeats)%process_inv Hb.
  rewrite Hbeats in Hb. apply derive_beats_sample in Hb.
  assert (range_indexed (rows df_ecg)) as Hri.
  { rewrite Hrows. apply assemble_range_indexed. }
  destruct (detecteer_Rpieken_rows df_ecg pk thr _ Hri Hdet Hb) as (_ & _ & Hs).
  split; [done|]. split.
  - intros s Hs'. rewrite Hs in Hs'. by injection Hs' as <-.
  - rewrite Hrows in Hs.
    apply assemble_lookup in Hs as (_ & Hts & Hact & _).
    rewrite list_lookup_fmap, Hts in Hact. simpl in Hact. by injection Hact.
Qed.

(** Two peaks, one while sitting (1 s) and one while walking (about 127 s);
    the retained beat is the second and carries the label of sample 3. *)
Lemma C9_witness :
  ∃ df_ecg df_pk b,
    process two_beat_file intervallen activiteiten rpieken_drempel
      = Ok (df_ecg, df_pk) ∧
    rows df_pk = [b] ∧ idx (sample b) = 3 ∧
    activiteit (sample b) = Some "lopen" ∧
    rows df_ecg !! idx (sample b) = Some (sample b) ∧
    (∀ s, rows df_ecg !! idx (sample b) = Some s →
          activiteit (sample b) = activiteit s) ∧
    activiteit (sample b) =
      cut1 (map inject_Z intervallen) activiteiten (timestamp (sample b)).
Proof.
  do 3 eexists.
  split; [vm_compute; reflexivity|].
  split; [reflexivity|]. split; [reflexivity|]. split; [reflexivity|].
  eapply (C9_beat_label_is_sample_label two_beat_file intervallen activiteiten
            rpieken_drempel).
  - vm_compute. reflexivity.
  - left.
Defined.

(** ** [initialize_data] *)

Lemma configure_keeps_artifacts (ss : gmap string value) :
  configure ss !! "df_ecg" = ss !! "df_ecg" ∧
  configure ss !! "df_ecg_pieken" = ss !! "df_ecg_pieken" ∧
  configure ss !! "data_initialized" = ss !! "data_initialized".
Proof.
  unfold configure. repeat split; by repeat (rewrite lookup_insert_ne by done).
Qed.

(** The guard: once the flag is in the store, the call does nothing and
    returns [None]. *)
Lemma initialize_data_guard (uploaded_file : option File) (data_Sanne : File)
  (st : Streamlit) (v : value) :
  session_state st !! "data_initialized" = Some v →
  initialize_data uploaded_file data_Sanne st = (None, st).
Proof. intros H. unfold initialize_data. by rewrite H. Qed.

Lemma initialize_data_success (uploaded_file : option File) (data_Sanne : File)
  (st : Streamlit) (df_ecg : Frame Sample) (df_pk : Frame Beat) :
  session_state st !! "data_initialized" = None →
  process (default data_Sanne uploaded_file) intervallen activiteiten
    rpieken_drempel = Ok (df_ecg, df_pk) →
  initialize_data uploaded_file data_Sanne st =
    (Some true,
     {| session_state :=
          <["data_initialized" := VBool true]>
          (<["df_ecg_pieken" := VBeats df_pk]>
          (<["df_ecg" := VSamples df_ecg]> (configure (session_state st))));
        shown := shown st |}).
Proof.
  intros Hflag Hrun. unfold initialize_data. rewrite Hflag.
  destruct uploaded_file; simpl in Hrun; by rewrite Hrun.
Qed.

(** C8: when loading or processing raises, [initialize_data] returns
    [False], shows one error carrying the text of the exception, and leaves
    [df_ecg], [df_ecg_pieken] and [data_initialized] as they were: the flag
    stays unset, and so do the two tables in a store that had none.  The
    store differs from the one before the call by the configuration
    constants only. *)
Theorem C8_failure_leaves_no_artifacts
  (uploaded_file : option File) (data_Sanne : File) (st : Streamlit)
  (e : exception) :
  session_state st !! "data_initialized" = None →
  process (default data_Sanne uploaded_file) intervallen activiteiten
    rpieken_drempel = Raise e →
  ∃ st',
    initialize_data uploaded_file data_Sanne st = (Some false, st') ∧
    shown st' = shown st ++
      [Error ("Er is een fout opgetreden bij het laden van het bestand: "
              ++ str e)] ∧
    session_state st' = configure (session_state st) ∧
    session_state st' !! "df_ecg" = session_state st !! "df_ecg" ∧
    session_state st' !! "df_ecg_pieken" = session_state st !! "df_ecg_pieken" ∧
    session_state st' !! "data_initialized" = None ∧
    (session_state st = ∅ →
     session_state st' !! "df_ecg" = None ∧
     session_state st' !! "df_ecg_pieken" = None).
Proof.
  intros Hflag Hrun. unfold initialize_data. rewrite Hflag.
  eexists. split.
  { destruct uploaded_file; simpl in Hrun; rewrite Hrun; reflexivity. }
  cbn [shown session_state].
  destruct (configure_keeps_artifacts (session_state st)) as (H1 & H2 & H3).
  rewrite H1, H2, H3. split; [done|]. split; [done|]. split; [done|].
  split; [done|]. split; [done|]. by intros ->.
Qed.

(** An upload without an ECG column on a fresh session. *)
Lemma C8_witness :
  let st := {| session_state := ∅; shown := [] |} in
  let upload : File :=
    Ok {| columns := ["time"];
          rows := [{| raw_time := 0; raw_ECG := 0 |};
                   {| raw_time := 1; raw_ECG := 0 |}] |} in
  ∃ st',
    initialize_data (Some upload) two_beat_file st = (Some false, st') ∧
    shown st' = shown st ++
      [Error ("Er is een fout opgetreden bij het laden van het bestand: "
              ++ str (KeyError "ECG"))] ∧
    session_state st' = configure (session_state st) ∧
    session_state st' !! "df_ecg" = session_state st !! "df_ecg" ∧
    session_state st' !! "df_ecg_pieken" = session_state st !! "df_ecg_pieken" ∧
    session_state st' !! "data_initialized" = None ∧
    (session_state st = ∅ →
     session_state st' !! "df_ecg" = None ∧
     session_state st' !! "df_ecg_pieken" = None).
Proof.
  intros st upload.
  apply (C8_failure_leaves_no_artifacts (Some upload) two_beat_file st
           (KeyError "ECG")).
  - reflexivity.
  - vm_compute. reflexivity.
Defined.

(** C3 (as amended): on a table without rows [detecteer_Rpieken] raises
    (the ECG column is absent, or [max] gets an empty sequence), and the
    pipeline raises already at [time.iloc[0]]; [initialize_data] shows the
    error and returns [False] without setting the flag.  The peak search and
    the beat derivation themselves return empty results on empty input. *)
Theorem C3_empty_input_raises
  (cols : list string) (pct h : Q) (data_Sanne : File) (st : Streamlit) :
  (∃ e, detecteer_Rpieken {| columns := cols; rows := [] |} pct = Raise e) ∧
  Scipy.find_peaks [] h = [] ∧
  derive_beats [] [] = [] ∧
  (session_state st !! "data_initialized" = None →
   ∃ e st',
     process (Ok {| columns := cols; rows := [] |}) intervallen activiteiten
       rpieken_drempel = Raise e ∧
     initialize_data (Some (Ok {| columns := cols; rows := [] |})) data_Sanne st
       = (Some false, st') ∧
     shown st' = shown st ++
       [Error ("Er is een fout opgetreden bij het laden van het bestand: "
               ++ str e)] ∧
     session_state st' !! "data_initialized" = None).
Proof.
  split; [|split; [done|split; [done|]]].
  - unfold detecteer_Rpieken, getitem. cbn [columns rows].
    case_bool_decide; simpl; eauto.
  - intros Hflag.
    assert (∃ e, process (Ok {| columns := cols; rows := [] |}) intervallen
                   activiteiten rpieken_drempel = Raise e) as [e He].
    { unfold process, getitem. cbn [columns rows mbind result_bind].
      case_bool_decide; simpl; eauto. }
    exists e. unfold initialize_data. rewrite Hflag, He.
    eexists. split; [done|]. split; [reflexivity|]. split; [reflexivity|].
    cbn [session_state].
    destruct (configure_keeps_artifacts (session_state st)) as (_ & _ & ->).
    exact Hflag.
Qed.

Lemma C3_witness :
  let st := {| session_state := ∅; shown := [] |} in
  ∃ e st',
     process (Ok (raw_frame [])) intervallen activiteiten rpieken_drempel
       = Raise e ∧
     initialize_data (Some (Ok (raw_frame []))) two_beat_file st
       = (Some false, st') ∧
     shown st' = shown st ++
       [Error ("Er is een fout opgetreden bij het laden van het bestand: "
               ++ str e)] ∧
     session_state st' !! "data_initialized" = None.
Proof.
  intros st.
  apply (proj2 (proj2 (proj2
    (C3_empty_input_raises ["time"; "ECG"] 0.6%Q 0%Q two_beat_file st)))).
  reflexivity.
Defined.

(** C3 as stated fails: on the empty table the peak detector raises, and so
    does the pipeline. *)
Lemma C3_counterexample :
  detecteer_Rpieken (ecg_frame []) rpieken_drempel
    = Raise (ValueError "max() iterable argument is empty") ∧
  process (Ok (raw_frame [])) intervallen activiteiten rpieken_drempel
    = Raise (IndexError "single positional indexer is out-of-bounds") ∧
  fst (initialize_data (Some (Ok (raw_frame []))) two_beat_file
         {| session_state := ∅; shown := [] |}) = Some false.
Proof. repeat split; reflexivity. Qed.

(** C4 (the program at the failing input): the page is rendered once
    without an upload, which processes the default recording; it is rendered
    again with an uploaded file.  The second call of [initialize_data] hits
    the guard, returns [None] and leaves the store as it was: [df_ecg] is
    still the table of the first recording, not that of the upload, and the
    page reports a failure. *)
Theorem C4_upload_after_first_run_is_ignored :
  let st0 := {| session_state := ∅; shown := [] |} in
  let st1 := homepage_upload None two_beat_file st0 in
  let st2 := homepage_upload (Some other_file) two_beat_file st1 in
  session_state st1 !! "data_initialized" = Some (VBool true) ∧
  initialize_data (Some other_file) two_beat_file st1 = (None, st1) ∧
  session_state st2 = session_state st1 ∧
  (∃ old new beats,
     process two_beat_file intervallen activiteiten rpieken_drempel
       = Ok (old, fst beats) ∧
     process other_file intervallen activiteiten rpieken_drempel
       = Ok (new, snd beats) ∧
     old ≠ new ∧
     session_state st2 !! "df_ecg" = Some (VSamples old)) ∧
  shown st2 =
    [Info "ℹ️ Standaard voorbeelddata geladen. Upload uw eigen data voor persoonlijke analyse.";
     Error "❌ Er is iets misgegaan bij het laden van het bestand. Controleer of het bestand het juiste formaat heeft."].
Proof.
  intros st0 st1 st2.
  assert (session_state st1 !! "data_initialized" = Some (VBool true)) as Hflag
    by (vm_compute; reflexivity).
  assert (initialize_data (Some other_file) two_beat_file st1 = (None, st1))
    as Hguard by (eapply initialize_data_guard; exact Hflag).
  split; [exact Hflag|]. split; [exact Hguard|].
  assert (st2 = {| session_state := session_state st1;
                   shown := shown st1 ++
                     [Error "❌ Er is iets misgegaan bij het laden van het bestand. Controleer of het bestand het juiste formaat heeft."] |})
    as Hst2.
  { unfold st2, homepage_upload. rewrite Hguard. reflexivity. }
  split; [by rewrite Hst2|]. split.
  - eexists _, _, (_, _). split; [vm_compute; reflexivity|].
    split; [vm_compute; reflexivity|]. split; [discriminate|].
    rewrite Hst2. cbn [session_state]. vm_compute. reflexivity.
  - rewrite Hst2. cbn [shown]. vm_compute. reflexivity.
Qed.

(** ** Termination of the scan and of the pipeline *)

(** The loops of [_local_maxima_1d] are bounded by [i_max - i]: any larger
    amount of fuel gives the same result, so the fuel passed by
    [local_maxima_1d] never cuts the scan short. *)
Lemma skip_equal_fuel (x : list Q) (v : Q) (i_max : nat) :
  ∀ f1 f2 a, i_max - a ≤ f1 → i_max - a ≤ f2 →
    Scipy.skip_equal f1 x v a i_max = Scipy.skip_equal f2 x v a i_max.
Proof.
  induction f1 as [|f1 IH]; intros f2 a H1 H2.
  - destruct f2 as [|f2]; [done|]. simpl.
    assert ((a <? i_max) = false) as -> by (apply Nat.ltb_ge; lia). done.
  - destruct f2 as [|f2]; simpl.
    + assert ((a <? i_max) = false) as -> by (apply Nat.ltb_ge; lia). done.
    + destruct (a <? i_max) eqn:E; [|done]. apply Nat.ltb_lt in E.
      destruct (Qeq_bool _ _); [|done]. simpl. apply IH; lia.
Qed.

Lemma scan_maxima_fuel (x : list Q) (i_max : nat) :
  ∀ f1 f2 i, i_max - i ≤ f1 → i_max - i ≤ f2 →
    Scipy.scan_maxima f1 x i i_max = Scipy.scan_maxima f2 x i i_max.
Proof.
  induction f1 as [|f1 IH]; intros f2 i H1 H2.
  - destruct f2 as [|f2]; [done|]. cbn [Scipy.scan_maxima].
    assert ((i <? i_max) = false) as -> by (apply Nat.ltb_ge; lia). done.
  - destruct f2 as [|f2]; cbn [Scipy.scan_maxima].
    + assert ((i <? i_max) = false) as -> by (apply Nat.ltb_ge; lia). done.
    + destruct (i <? i_max) eqn:E; [|done]. apply Nat.ltb_lt in E.
      destruct (Qltb _ _); [|apply IH; lia].
      pose proof (skip_equal_spec x i_max (Scipy.at_ x i)
                    (i_max - (i + 1)) (i + 1)) as Hsk.
      cbv zeta in Hsk. destruct Hsk as (Hr & _ & _); [lia | lia |].
      destruct (Qltb _ _); [|apply IH; lia].
      f_equal. apply IH; lia.
Qed.

(** On a table with the two required columns and at least one row the
    [try] block runs to its end. *)
Lemma process_total (df : Frame RawRow) (thr : Q) :
  "time" ∈ columns df → "ECG" ∈ columns df → rows df ≠ [] →
  ∃ df_ecg df_pk,
    process (Ok df) intervallen activiteiten thr = Ok (df_ecg, df_pk).
Proof.
  intros Htime Hecg Hne. unfold process.
  cbn [mbind result_bind]. rewrite (getitem_Ok _ _ _ Htime).
  cbn [mbind result_bind].
  destruct (rows df) as [|r0 raw] eqn:Erows; [done|].
  cbn [map iloc0 mbind result_bind].
  rewrite (cut_Ok _ _ _ intervallen_sorted intervallen_length).
  cbn [mbind result_bind].
  match goal with
  | |- context [detecteer_Rpieken ?d thr] => set (df_ecg := d)
  end.
  destruct (detecteer_Rpieken_total df_ecg thr) as [pk Hpk].
  { unfold df_ecg. cbn [columns]. by do 2 apply with_column_keeps. }
  { unfold df_ecg. cbn [rows]. done. }
  rewrite Hpk. cbn [mbind result_bind].
  destruct (detecteer_Rpieken_inv _ _ _ Hpk) as (_ & Hcols & _).
  rewrite (getitem_Ok pk "timestamp" timestamp).
  - by eexists _, _.
  - rewrite Hcols. unfold df_ecg. cbn [columns].
    apply with_column_keeps, with_column_here.
Qed.

(** * Further properties of the peak detector *)

Lemma at_fmap_lookup (rs : list Sample) (m : nat) (s : Sample) :
  rs !! m = Some s → Scipy.at_ (map ECG rs) m = ECG s.
Proof.
  intros H. unfold Scipy.at_. apply nth_lookup_Some.
  by rewrite list_lookup_fmap, H.
Qed.

Lemma detecteer_Rpieken_row_source (df out : Frame Sample) (pct mx : Q)
  (s : Sample) :
  detecteer_Rpieken df pct = Ok out →
  py_max (map ECG (rows df)) = Ok mx →
  s ∈ rows out →
  ∃ m, m ∈ Scipy.find_peaks (map ECG (rows df)) (pct * mx) ∧
       rows df !! m = Some s.
Proof.
  intros (_ & _ & mx' & Hmx & Hil)%detecteer_Rpieken_inv Hmx' Hs.
  rewrite Hmx' in Hmx. injection Hmx as <-.
  apply iloc_spec in Hil.
  apply list_elem_of_lookup in Hs as [k Hk].
  destruct (Forall2_lookup_r _ _ _ _ _ Hil Hk) as (m & Hm & Hrow).
  exists m. split; [|done]. apply list_elem_of_lookup. eauto.
Qed.

(** X1: on a typed table (every ECG cell a number) [detecteer_Rpieken]
    raises [KeyError] when the table has no ECG column and [ValueError]
    when it has the column but no rows; on every other typed table it
    returns a table with the columns of its argument.  A table whose ECG
    column was parsed as text is outside this statement. *)
Theorem detecteer_Rpieken_outcomes (df : Frame Sample) (pct : Q) :
  ("ECG" ∉ columns df →
     detecteer_Rpieken df pct = Raise (KeyError "ECG")) ∧
  ("ECG" ∈ columns df → rows df = [] →
     detecteer_Rpieken df pct
       = Raise (ValueError "max() iterable argument is empty")) ∧
  ("ECG" ∈ columns df → rows df ≠ [] →
     ∃ out, detecteer_Rpieken df pct = Ok out ∧ columns out = columns df).
Proof.
  split; [|split].
  - intros Hno. unfold detecteer_Rpieken, getitem.
    by rewrite bool_decide_eq_false_2.
  - intros Hcol Hnil. unfold detecteer_Rpieken.
    rewrite (getitem_Ok _ _ _ Hcol), Hnil. done.
  - intros Hcol Hne.
    destruct (detecteer_Rpieken_total df pct Hcol Hne) as [out Hout].
    exists out. split; [done|].
    by apply detecteer_Rpieken_inv in Hout as (_ & ? & _).
Qed.

Lemma detecteer_Rpieken_outcomes_witness :
  ∃ out, detecteer_Rpieken (ecg_frame [0; 5; 0]%Q) 0.6 = Ok out ∧
         columns out = columns (ecg_frame [0; 5; 0]%Q).
Proof.
  apply (proj2 (proj2 (detecteer_Rpieken_outcomes (ecg_frame [0; 5; 0]%Q) 0.6%Q))).
  - vm_compute. right. left.
  - discriminate.
Defined.

(** X2: every row returned by [detecteer_Rpieken] has an ECG value between
    the threshold [pct_drempel * max] and the maximum.  Hence nothing is
    returned when the whole signal is negative and the fraction is below 1,
    or when the maximum is positive and the fraction exceeds 1. *)
Theorem detecteer_Rpieken_threshold (df out : Frame Sample) (pct mx : Q) :
  detecteer_Rpieken df pct = Ok out →
  py_max (map ECG (rows df)) = Ok mx →
  (∀ s, s ∈ rows out → (pct * mx <= ECG s <= mx)%Q) ∧
  ((mx < 0)%Q → (pct < 1)%Q → rows out = []) ∧
  ((0 < mx)%Q → (1 < pct)%Q → rows out = []).
Proof.
  intros Hout Hmx.
  assert (∀ s, s ∈ rows out → (pct * mx <= ECG s <= mx)%Q) as Hbounds.
  { intros s Hs.
    destruct (detecteer_Rpieken_row_source df out pct mx s Hout Hmx Hs)
      as (m & Hm & Hrow).
    apply find_peaks_spec in Hm as (_ & _ & _ & _ & Hh).
    rewrite (at_fmap_lookup _ _ _ Hrow) in Hh. split; [done|].
    apply (py_max_spec _ _ Hmx). apply list_elem_of_fmap. exists s.
    split; [done|]. apply list_elem_of_lookup. eauto. }
  split; [done|]. split.
  - intros Hneg Hpct. destruct (rows out) as [|s tl] eqn:E; [done|]. exfalso.
    destruct (Hbounds s) as [H1 H2]; [left|]. nra.
  - intros Hpos Hpct. destruct (rows out) as [|s tl] eqn:E; [done|]. exfalso.
    destruct (Hbounds s) as [H1 H2]; [left|]. nra.
Qed.

(** All samples negative: the threshold -6 lies above the maximum -10. *)
Lemma detecteer_Rpieken_threshold_witness :
  let df := ecg_frame [-30; -10; -20]%Q in
  let out := {| columns := columns df; rows := [] |} in
  detecteer_Rpieken df 0.6 = Ok out ∧
  py_max (map ECG (rows df)) = Ok (-10)%Q ∧
  rows out = [].
Proof.
  intros df out.
  assert (detecteer_Rpieken df 0.6 = Ok out) as Hrun
    by (vm_compute; reflexivity).
  assert (py_max (map ECG (rows df)) = Ok (-10)%Q) as Hmax
    by (vm_compute; reflexivity).
  split; [exact Hrun|]. split; [exact Hmax|].
  apply (proj1 (proj2 (detecteer_Rpieken_threshold df out 0.6%Q (-10)%Q
                         Hrun Hmax))); reflexivity.
Defined.

Lemma StronglySorted_filter_rel (R : relation nat) (P : nat → Prop)
  `{!∀ n, Decision (P n)} (l : list nat) :
  StronglySorted R l → StronglySorted R (filter P l).
Proof.
  induction 1 as [|n l Hs IH Hall]; [constructor|].
  rewrite filter_cons. destruct (decide (P n)); [|done].
  constructor; [done|].
  apply Forall_forall. intros k [_ Hk]%list_elem_of_filter.
  rewrite Forall_forall in Hall. by apply Hall.
Qed.

Lemma scan_spaced (x : list Q) (i_max : nat) :
  ∀ fuel i,
    Forall (λ t, i ≤ mid_of t) (Scipy.scan_maxima fuel x i i_max) ∧
    StronglySorted (λ a b, a + 2 ≤ b)
      (map mid_of (Scipy.scan_maxima fuel x i i_max)).
Proof.
  induction fuel as [|fuel IH]; intros i; cbn [Scipy.scan_maxima].
  - split; constructor.
  - destruct (i <? i_max) eqn:Elt; [|split; constructor].
    apply Nat.ltb_lt in Elt.
    assert (Hnext :
      Forall (λ t, i ≤ mid_of t) (Scipy.scan_maxima fuel x (i + 1) i_max) ∧
      StronglySorted (λ a b, a + 2 ≤ b)
        (map mid_of (Scipy.scan_maxima fuel x (i + 1) i_max))).
    { destruct (IH (i + 1)) as [Hall Hs]. split; [|done].
      eapply Forall_impl; [exact Hall|]. cbn beta. intros; lia. }
    destruct (Qltb (Scipy.at_ x (i - 1)) (Scipy.at_ x i)); [|done].
    pose proof (skip_equal_spec x i_max (Scipy.at_ x i)
                  (i_max - (i + 1)) (i + 1)) as Hsk.
    cbv zeta in Hsk. destruct Hsk as (Hr & _ & _); [lia | lia |].
    set (i_ahead := Scipy.skip_equal _ _ _ _ _) in *.
    destruct (Qltb (Scipy.at_ x i_ahead) (Scipy.at_ x i)); [|done].
    destruct (IH (i_ahead + 1)) as [Hall Hs].
    assert (Hmid : i ≤ Nat.div (i + (i_ahead - 1)) 2 < i_ahead).
    { split.
      - apply Nat.div_le_lower_bound; lia.
      - apply Nat.Div0.div_lt_upper_bound. lia. }
    split.
    + constructor; [unfold mid_of; cbn [fst]; lia|].
      eapply Forall_impl; [exact Hall|]. cbn beta. intros; lia.
    + cbn [map]. constructor; [done|].
      apply Forall_fmap. eapply Forall_impl; [exact Hall|].
      intros t Ht. unfold compose, mid_of in *. cbn [fst] in *. lia.
Qed.

Lemma scan_count (x : list Q) (i_max : nat) :
  ∀ fuel i, 2 * length (Scipy.scan_maxima fuel x i i_max) ≤ i_max + 1 - i.
Proof.
  induction fuel as [|fuel IH]; intros i; cbn [Scipy.scan_maxima].
  - simpl. lia.
  - destruct (i <? i_max) eqn:Elt; [|simpl; lia].
    apply Nat.ltb_lt in Elt.
    pose proof (IH (i + 1)) as Hstep.
    destruct (Qltb (Scipy.at_ x (i - 1)) (Scipy.at_ x i)); [|lia].
    pose proof (skip_equal_spec x i_max (Scipy.at_ x i)
                  (i_max - (i + 1)) (i + 1)) as Hsk.
    cbv zeta in Hsk. destruct Hsk as (Hr & _ & _); [lia | lia |].
    set (i_ahead := Scipy.skip_equal _ _ _ _ _) in *.
    destruct (Qltb (Scipy.at_ x i_ahead) (Scipy.at_ x i)); [|lia].
    pose proof (IH (i_ahead + 1)). cbn [length]. lia.
Qed.

Lemma find_peaks_spaced (x : list Q) (h : Q) :
  StronglySorted (λ a b, a + 2 ≤ b) (Scipy.find_peaks x h) ∧
  (x ≠ [] → 2 * length (Scipy.find_peaks x h) + 1 ≤ length x).
Proof.
  unfold Scipy.find_peaks, Scipy.midpoints, Scipy.local_maxima_1d. split.
  - apply StronglySorted_filter_rel. apply scan_spaced.
  - intros Hne.
    pose proof (length_filter (λ p, Qleb h (Scipy.at_ x p) = true)
      (map (λ t, fst (fst t))
         (Scipy.scan_maxima (length x) x 1 (length x - 1)))) as Hf.
    rewrite length_map in Hf.
    pose proof (scan_count x (length x - 1) (length x) 1).
    destruct x; [done|]. simpl length in *. lia.
Qed.

Lemma iloc_length {R} (rs out : list R) (ps : list nat) :
  iloc rs ps = Ok out → length out = length ps.
Proof. intros H%iloc_spec. symmetry. by eapply Forall2_length. Qed.

(** X3: two rows returned by [detecteer_Rpieken] are never neighbours in
    the table: the positions of consecutive peaks differ by at least 2.
    Together with the two excluded end positions this bounds the number of
    peaks by half the number of samples. *)
Theorem detecteer_Rpieken_spacing (df out : Frame Sample) (pct : Q) :
  range_indexed (rows df) →
  detecteer_Rpieken df pct = Ok out →
  StronglySorted (λ a b, a + 2 ≤ b) (map idx (rows out)) ∧
  2 * length (rows out) + 1 ≤ length (rows df).
Proof.
  intros Hri Hout.
  destruct (detecteer_Rpieken_positions _ _ _ Hri Hout) as (mx & Hmx & Hpos & _).
  destruct (find_peaks_spaced (map ECG (rows df)) (pct * mx)) as [Hsp Hcnt].
  split; [by rewrite Hpos|].
  rewrite <- (length_map idx), Hpos.
  rewrite length_map in Hcnt. apply Hcnt.
  destruct (rows df); [done|discriminate].
Qed.

Lemma detecteer_Rpieken_spacing_witness :
  let df := ecg_frame [0; 5; 0; 5; 0]%Q in
  ∃ out, detecteer_Rpieken df 0.6 = Ok out ∧
    StronglySorted (λ a b, a + 2 ≤ b) (map idx (rows out)) ∧
    2 * length (rows out) + 1 ≤ length (rows df).
Proof.
  intros df. eexists. split; [vm_compute; reflexivity|].
  apply (detecteer_Rpieken_spacing df _ 0.6%Q).
  - apply range_indexed_ecg_frame.
  - vm_compute. reflexivity.
Defined.

Lemma iloc_sorted_sublist {R} (rs : list R) :
  ∀ (ps : list nat) (out : list R) (k : nat),
    StronglySorted lt ps → Forall (λ p, k ≤ p) ps →
    Forall2 (λ p r, rs !! p = Some r) ps out →
    out `sublist_of` drop k rs.
Proof.
  induction ps as [|p ps IH]; intros out k Hs Hk Hil.
  - apply Forall2_nil_inv_l in Hil as ->. apply sublist_nil_l.
  - apply Forall2_cons_inv_l in Hil as (r & out' & Hr & Hrest & ->).
    apply StronglySorted_inv in Hs as [Hs Hall].
    apply Forall_cons in Hk as [Hkp _].
    assert (out' `sublist_of` drop (S p) rs) as Hsub.
    { apply IH; [done| |done].
      eapply Forall_impl; [exact Hall|]. cbn beta. intros; lia. }
    rewrite <- (take_drop (p - k) (drop k rs)), drop_drop.
    replace (k + (p - k)) with p by lia.
    apply sublist_inserts_l.
    rewrite (drop_S _ _ _ Hr). by apply sublist_skip.
Qed.

Lemma detecteer_Rpieken_rows_sublist (df out : Frame Sample) (pct : Q) :
  detecteer_Rpieken df pct = Ok out →
  rows out `sublist_of` rows df.
Proof.
  intros (_ & _ & mx & _ & Hil)%detecteer_Rpieken_inv.
  apply iloc_spec in Hil.
  rewrite <- (drop_0 (rows df)).
  eapply iloc_sorted_sublist; [apply find_peaks_sorted| |exact Hil].
  apply Forall_forall. intros; lia.
Qed.

(** X4: [detecteer_Rpieken] selects rows without reordering or repeating
    them: the returned rows form a subsequence of the rows of the table,
    and the columns are those of the table. *)
Theorem detecteer_Rpieken_sublist (df out : Frame Sample) (pct : Q) :
  detecteer_Rpieken df pct = Ok out →
  rows out `sublist_of` rows df ∧ columns out = columns df.
Proof.
  intros Hout. split; [by eapply detecteer_Rpieken_rows_sublist|].
  by apply detecteer_Rpieken_inv in Hout as (_ & ? & _).
Qed.

Lemma detecteer_Rpieken_sublist_witness :
  let df := ecg_frame [0; 5; 0; 7; 0]%Q in
  ∃ out, detecteer_Rpieken df 0.6 = Ok out ∧ length (rows out) = 2 ∧
         rows out `sublist_of` rows df ∧ columns out = columns df.
Proof.
  intros df. eexists. split; [vm_compute; reflexivity|].
  split; [reflexivity|].
  apply (detecteer_Rpieken_sublist df _ 0.6%Q).
  vm_compute. reflexivity.
Defined.

(** * Further properties of the pipeline *)

Lemma assemble_lookup_mapped (f : Z → Q) (c : Q → option string)
  (raw : list RawRow) :
  ∀ i k r, raw !! k = Some r →
    assemble i raw (map f (map raw_time raw)) (map c (map f (map raw_time raw)))
      !! k
    = Some {| idx := i + k; time := raw_time r; ECG := raw_ECG r;
              timestamp := f (raw_time r);
              activiteit := c (f (raw_time r)) |}.
Proof.
  induction raw as [|r0 raw IH]; intros i k r Hk; [done|].
  destruct k as [|k]; simpl in Hk |- *.
  - injection Hk as <-. by rewrite Nat.add_0_r.
  - rewrite (IH (S i) k r Hk). f_equal. f_equal. lia.
Qed.

Lemma process_columns (file : File) (bins : list Z) (labels : list string)
  (thr : Q) (df_ecg : Frame Sample) (df_pk : Frame Beat) :
  process file bins labels thr = Ok (df_ecg, df_pk) →
  ∃ df, file = Ok df ∧
    columns df_ecg = with_column (with_column (columns df) "timestamp") "activiteit" ∧
    columns df_pk =
      with_column (with_column (with_column (columns df_ecg) "rr") "bpm")
        "gemiddelde_tijd" ∧
    "time" ∈ columns df ∧ "ECG" ∈ columns df.
Proof.
  unfold process. unfold mbind, result_bind.
  destruct file as [df|]; [|done].
  destruct (getitem df "time" raw_time) as [t|] eqn:Et; [|done].
  apply getitem_inv in Et as [Hcol ->].
  destruct (iloc0 _) as [t0|] eqn:E0; [|done].
  destruct (cut _ _ _) as [act|] eqn:Ec; [|done].
  destruct (detecteer_Rpieken _ _) as [pk|] eqn:Ed; [|done].
  destruct (getitem pk "timestamp" timestamp) as [tsp|] eqn:Ep; [|done].
  intros [= <- <-]. exists df. cbn [columns].
  apply detecteer_Rpieken_inv in Ed as (Hecg & Hcols & _).
  cbn [columns] in Hecg, Hcols. rewrite Hcols.
  repeat split; try done.
  apply with_column_inv in Hecg; [|done].
  by apply with_column_inv in Hecg.
Qed.

Lemma process_rows_lookup
  (file : File) (bins : list Z) (labels : list string) (thr : Q)
  (df_ecg : Frame Sample) (df_pk : Frame Beat) :
  process file bins labels thr = Ok (df_ecg, df_pk) →
  ∃ df r0,
    file = Ok df ∧ rows df !! 0 = Some r0 ∧
    length (rows df_ecg) = length (rows df) ∧
    columns df_ecg =
      with_column (with_column (columns df) "timestamp") "activiteit" ∧
    ∀ k r, rows df !! k = Some r →
      rows df_ecg !! k =
        Some {| idx := k; time := raw_time r; ECG := raw_ECG r;
                timestamp := elapsed (raw_time r0) (raw_time r);
                activiteit := cut1 (map inject_Z bins) labels
                                (elapsed (raw_time r0) (raw_time r)) |}.
Proof.
  intros Hrun.
  destruct (process_columns _ _ _ _ _ _ Hrun) as (df' & Hfile' & Hcols & _).
  destruct (process_inv _ _ _ _ _ _ Hrun)
    as (df & t0 & pk & Hfile & _ & H0 & Hrows & _ & _).
  rewrite Hfile in Hfile'. injection Hfile' as <-.
  destruct (rows df) as [|r0 raw] eqn:Eraw; [done|].
  simpl in H0. injection H0 as <-.
  exists df, r0. rewrite Eraw. split; [done|]. split; [done|].
  split; [|split; [done|]].
  - rewrite Hrows. apply (assemble_length (r0 :: raw)).
  - intros k r Hk. rewrite Hrows.
    by rewrite (assemble_lookup_mapped _ _ (r0 :: raw) 0 k r Hk).
Qed.




Lemma cut1_label_elem (bins : list Q) (labels : list string) (t : Q)
  (lab : string) :
  cut1 bins labels t = Some lab → lab ∈ labels.
Proof.
  unfold cut1. destruct (_ || _); [done|].
  intros H. apply list_elem_of_lookup. eauto.
Qed.

Lemma cut1_intervallen (t : Q) :
  cut1 (map inject_Z intervallen) activiteiten t = None ↔
  (t <= 0)%Q ∨ (7320 < t)%Q.
Proof.
  split.
  - intros Hnone.
    destruct (Qlt_le_dec 0 t) as [Hpos|]; [|by left].
    destruct (Qlt_le_dec 7320 t) as [|Hle]; [by right|]. exfalso.
    destruct (cut1_inside (map inject_Z intervallen) activiteiten t 0 7320
                intervallen_sorted intervallen_length eq_refl eq_refl
                (conj Hpos Hle))
      as (i & lo & hi & lab & _ & _ & _ & _ & Hcut & _).
    congruence.
  - intros Hout.
    apply (cut1_outside (map inject_Z intervallen) activiteiten t 0 7320);
      [|reflexivity|reflexivity|exact Hout].
    by apply sorted_is_monotonic, intervallen_sorted.
Qed.

(** X6: with the boundaries of the program a sample is left without
    activity exactly when its elapsed time is at most 0 s or more than
    7320 s; every label that is assigned is one of [activiteiten].  The
    first sample of a recording has elapsed time 0 and so never gets a
    label. *)
Theorem process_labels (file : File) (thr : Q)
  (df_ecg : Frame Sample) (df_pk : Frame Beat) :
  process file intervallen activiteiten thr = Ok (df_ecg, df_pk) →
  (∀ s, s ∈ rows df_ecg →
     (activiteit s = None ↔ (timestamp s <= 0)%Q ∨ (7320 < timestamp s)%Q) ∧
     (∀ lab, activiteit s = Some lab → lab ∈ activiteiten)) ∧
  (∃ s0, rows df_ecg !! 0 = Some s0 ∧ (timestamp s0 == 0)%Q ∧
         activiteit s0 = None).
Proof.
  intros Hrun. split.
  - intros s Hs.
    destruct (process_inv _ _ _ _ _ _ Hrun)
      as (df & t0 & pk & _ & _ & _ & Hrows & _ & _).
    apply list_elem_of_lookup in Hs as [k Hk]. rewrite Hrows in Hk.
    apply assemble_lookup in Hk as (_ & Hts & Hact & _).
    rewrite list_lookup_fmap, Hts in Hact. simpl in Hact.
    injection Hact as Hact. rewrite <- Hact. split.
    + apply cut1_intervallen.
    + intros lab. apply cut1_label_elem.
  - destruct (process_rows_lookup _ _ _ _ _ _ Hrun)
      as (df & r0 & _ & H0 & _ & _ & Hlook).
    eexists. split; [apply (Hlook 0 r0 H0)|]. cbn [timestamp activiteit].
    assert (elapsed (raw_time r0) (raw_time r0) == 0)%Q as Hz.
    { unfold elapsed, Qeq. simpl. lia. }
    split; [done|]. apply cut1_intervallen. left. rewrite Hz. apply Qle_refl.
Qed.

Lemma process_labels_witness :
  ∃ df_ecg df_pk,
    process two_beat_file intervallen activiteiten rpieken_drempel
      = Ok (df_ecg, df_pk) ∧
    (∀ s, s ∈ rows df_ecg →
       (activiteit s = None ↔ (timestamp s <= 0)%Q ∨ (7320 < timestamp s)%Q) ∧
       (∀ lab, activiteit s = Some lab → lab ∈ activiteiten)) ∧
    (∃ s0, rows df_ecg !! 0 = Some s0 ∧ (timestamp s0 == 0)%Q ∧
           activiteit s0 = None).
Proof.
  do 2 eexists. split; [vm_compute; reflexivity|].
  eapply (process_labels two_beat_file rpieken_drempel).
  vm_compute. reflexivity.
Defined.

Lemma process_no_time (df : Frame RawRow) (bins : list Z)
  (labels : list string) (thr : Q) :
  "time" ∉ columns df →
  process (Ok df) bins labels thr = Raise (KeyError "time").
Proof.
  intros Hno. unfold process, getitem. cbn [mbind result_bind].
  by rewrite bool_decide_eq_false_2.
Qed.

Lemma process_no_rows (df : Frame RawRow) (bins : list Z)
  (labels : list string) (thr : Q) :
  "time" ∈ columns df → rows df = [] →
  process (Ok df) bins labels thr
    = Raise (IndexError "single positional indexer is out-of-bounds").
Proof.
  intros Hcol Hnil. unfold process. cbn [mbind result_bind].
  rewrite (getitem_Ok _ _ _ Hcol), Hnil. done.
Qed.

Lemma process_no_ECG (df : Frame RawRow) (thr : Q) :
  "time" ∈ columns df → rows df ≠ [] → "ECG" ∉ columns df →
  process (Ok df) intervallen activiteiten thr = Raise (KeyError "ECG").
Proof.
  intros Hcol Hne Hno. unfold process. cbn [mbind result_bind].
  rewrite (getitem_Ok _ _ _ Hcol). cbn [mbind result_bind].
  destruct (rows df) as [|r0 raw] eqn:Erows; [done|].
  cbn [map iloc0 mbind result_bind].
  rewrite (cut_Ok _ _ _ intervallen_sorted intervallen_length).
  cbn [mbind result_bind].
  unfold detecteer_Rpieken, getitem. cbn [columns].
  rewrite bool_decide_eq_false_2; [done|].
  intros Hin. apply Hno.
  apply with_column_inv in Hin; [|done].
  by apply with_column_inv in Hin.
Qed.

(** X7: with the configuration of the program and a typed table (integer
    [time] cells, numeric ECG cells) the [try] block fails for four reasons
    only, checked in this order: [read_csv] raised; the table has no [time]
    column (KeyError); it has no rows (IndexError from [iloc[0]]); it has no
    [ECG] column (KeyError).  Any other typed table is processed to the
    end.  A table with a column parsed as text is outside this
    statement. *)
Theorem process_failures (file : File) (thr : Q) (e : exception) :
  process file intervallen activiteiten thr = Raise e ↔
  file = Raise e ∨
  ∃ df, file = Ok df ∧
    ((("time" ∉ columns df) ∧ e = KeyError "time") ∨
     ("time" ∈ columns df ∧ rows df = [] ∧
      e = IndexError "single positional indexer is out-of-bounds") ∨
     ("time" ∈ columns df ∧ rows df ≠ [] ∧ ("ECG" ∉ columns df) ∧
      e = KeyError "ECG")).
Proof.
  split.
  - intros Hrun. destruct file as [df|e']; [right|left; by injection Hrun as ->].
    exists df. split; [done|].
    destruct (decide ("time" ∈ columns df)) as [Htime|Htime].
    + right. destruct (rows df) as [|r0 raw] eqn:Erows.
      * left. rewrite (process_no_rows df _ _ _ Htime Erows) in Hrun.
        by injection Hrun as <-.
      * right. destruct (decide ("ECG" ∈ columns df)) as [Hecg|Hecg].
        -- exfalso.
           destruct (process_total df thr Htime Hecg) as (? & ? & Hok);
             [by rewrite Erows|]. congruence.
        -- rewrite (process_no_ECG df thr Htime) in Hrun;
             [|by rewrite Erows|done].
           by injection Hrun as <-.
    + left. rewrite (process_no_time df _ _ _ Htime) in Hrun.
      by injection Hrun as <-.
  - intros [-> | (df & -> & [[Htime ->] | [(Htime & Hnil & ->) |
                                           (Htime & Hne & Hecg & ->)]])].
    + done.
    + by apply process_no_time.
    + by apply process_no_rows.
    + by apply process_no_ECG.
Qed.

(** A table whose only column is [time]. *)
Lemma process_failures_witness :
  let df := {| columns := ["time"];
               rows := [{| raw_time := 0; raw_ECG := 0 |}] |} in
  process (Ok df) intervallen activiteiten rpieken_drempel
    = Raise (KeyError "ECG").
Proof.
  intros df.
  apply (proj2 (process_failures (Ok df) rpieken_drempel (KeyError "ECG"))).
  right. exists df. split; [reflexivity|]. right. right.
  split; [left|]. split; [discriminate|]. split; [|reflexivity].
  intros Hin. apply list_elem_of_singleton in Hin. discriminate Hin.
Defined.

(** * Further properties of [initialize_data] and the page *)

Lemma configure_config (ss : gmap string value) :
  configure ss !! "intervallen" = Some (VInts intervallen) ∧
  configure ss !! "activiteiten" = Some (VStrs activiteiten) ∧
  configure ss !! "activiteiten_kleuren" = Some (VDict activiteiten_kleuren) ∧
  configure ss !! "rpieken_drempel" = Some (VFloat rpieken_drempel).
Proof.
  unfold configure. repeat split.
  - by do 2 (rewrite lookup_insert_ne by done); rewrite lookup_insert_eq.
  - by rewrite lookup_insert_ne by done; rewrite lookup_insert_eq.
  - by rewrite lookup_insert_eq.
  - by do 3 (rewrite lookup_insert_ne by done); rewrite lookup_insert_eq.
Qed.

Lemma stored_lookups (ss : gmap string value) (a : Frame Sample)
  (b : Frame Beat) :
  let ss' := <["data_initialized" := VBool true]>
             (<["df_ecg_pieken" := VBeats b]>
             (<["df_ecg" := VSamples a]> (configure ss))) in
  ss' !! "data_initialized" = Some (VBool true) ∧
  ss' !! "df_ecg_pieken" = Some (VBeats b) ∧
  ss' !! "df_ecg" = Some (VSamples a) ∧
  ss' !! "intervallen" = Some (VInts intervallen) ∧
  ss' !! "activiteiten" = Some (VStrs activiteiten) ∧
  ss' !! "activiteiten_kleuren" = Some (VDict activiteiten_kleuren) ∧
  ss' !! "rpieken_drempel" = Some (VFloat rpieken_drempel).
Proof.
  intros ss'. subst ss'.
  destruct (configure_config ss) as (H1 & H2 & H3 & H4).
  repeat split.
  - by rewrite lookup_insert_eq.
  - by rewrite lookup_insert_ne by done; rewrite lookup_insert_eq.
  - by do 2 (rewrite lookup_insert_ne by done); rewrite lookup_insert_eq.
  - by do 3 (rewrite lookup_insert_ne by done).
  - by do 3 (rewrite lookup_insert_ne by done).
  - by do 3 (rewrite lookup_insert_ne by done).
  - by do 3 (rewrite lookup_insert_ne by done).
Qed.

(** X8: on a session that is not yet initialized, a readable typed table
    (integer [time] cells, numeric ECG cells) with the columns [time] and
    [ECG] and at least one row is always loaded: [initialize_data] returns
    [True], shows no message, and stores the flag, both tables produced by
    the [try] block and the threshold.  A table with a column parsed as
    text is outside this statement. *)
Theorem initialize_data_loads
  (uploaded_file : option File) (data_Sanne : File) (st : Streamlit)
  (df : Frame RawRow) :
  session_state st !! "data_initialized" = None →
  default data_Sanne uploaded_file = Ok df →
  "time" ∈ columns df → "ECG" ∈ columns df → rows df ≠ [] →
  ∃ df_ecg df_pk st',
    process (Ok df) intervallen activiteiten rpieken_drempel
      = Ok (df_ecg, df_pk) ∧
    initialize_data uploaded_file data_Sanne st = (Some true, st') ∧
    shown st' = shown st ∧
    session_state st' !! "data_initialized" = Some (VBool true) ∧
    session_state st' !! "df_ecg" = Some (VSamples df_ecg) ∧
    session_state st' !! "df_ecg_pieken" = Some (VBeats df_pk) ∧
    session_state st' !! "rpieken_drempel" = Some (VFloat rpieken_drempel).
Proof.
  intros Hflag Hfile Htime Hecg Hne.
  destruct (process_total df rpieken_drempel Htime Hecg Hne)
    as (df_ecg & df_pk & Hrun).
  exists df_ecg, df_pk. eexists. split; [done|]. split.
  { apply initialize_data_success; [done|]. by rewrite Hfile. }
  cbn [shown session_state].
  destruct (stored_lookups (session_state st) df_ecg df_pk)
    as (H1 & H2 & H3 & _ & _ & _ & H7).
  done.
Qed.

Lemma initialize_data_loads_witness :
  let st := {| session_state := ∅; shown := [] |} in
  ∃ df_ecg df_pk st',
    process other_file intervallen activiteiten rpieken_drempel
      = Ok (df_ecg, df_pk) ∧
    initialize_data (Some other_file) two_beat_file st = (Some true, st') ∧
    shown st' = shown st ∧
    session_state st' !! "data_initialized" = Some (VBool true) ∧
    session_state st' !! "df_ecg" = Some (VSamples df_ecg) ∧
    session_state st' !! "df_ecg_pieken" = Some (VBeats df_pk) ∧
    session_state st' !! "rpieken_drempel" = Some (VFloat rpieken_drempel).
Proof.
  intros st.
  apply (initialize_data_loads (Some other_file) two_beat_file st
           (raw_frame [(0%Z, 0%Q); (500%Z, 9%Q); (1000%Z, 0%Q);
                       (1500%Z, 9%Q); (2000%Z, 0%Q)])).
  - reflexivity.
  - reflexivity.
  - vm_compute. left.
  - vm_compute. right. left.
  - discriminate.
Defined.


Lemma homepage_upload_store (uploaded_file : option File) (data_Sanne : File)
  (st : Streamlit) :
  session_state (homepage_upload uploaded_file data_Sanne st) =
  session_state (snd (initialize_data uploaded_file data_Sanne st)).
Proof.
  unfold homepage_upload.
  destruct (initialize_data uploaded_file data_Sanne st) as [ret st'].
  destruct uploaded_file; case_bool_decide; done.
Qed.

Lemma initialize_data_store_consistent (uploaded_file : option File)
  (data_Sanne : File) (st : Streamlit) :
  store_consistent (session_state st) →
  store_consistent
    (session_state (snd (initialize_data uploaded_file data_Sanne st))).
Proof.
  intros Hok. unfold initialize_data.
  destruct (session_state st !! "data_initialized") as [v|] eqn:Hflag; [done|].
  destruct (process _ _ _ _) as [[a b]|e]; cbn [snd session_state].
  - intros _.
    destruct (stored_lookups (session_state st) a b)
      as (_ & H2 & H3 & H4 & H5 & H6 & _).
    unfold store_consistent. eauto 10.
  - intros [v Hv].
    destruct (configure_keeps_artifacts (session_state st)) as (_ & _ & H3).
    congruence.
Qed.

Lemma age_input_other (age : Z) (ss : gmap string value) (k : string) :
  k ≠ "user_age" → age_input age ss !! k = ss !! k.
Proof.
  intros Hk. unfold age_input. rewrite lookup_insert_ne by done.
  destruct (ss !! "user_age"); [done|]. by rewrite lookup_insert_ne.
Qed.

Lemma age_input_store_consistent (age : Z) (ss : gmap string value) :
  store_consistent ss → store_consistent (age_input age ss).
Proof.
  unfold store_consistent. rewrite !age_input_other by done. done.
Qed.

Lemma homepage_sidebar_store (age : Z) (uploaded_file : option File)
  (data_Sanne : File) (st : Streamlit) :
  session_state (homepage_sidebar age uploaded_file data_Sanne st) =
  session_state
    (snd (initialize_data uploaded_file data_Sanne
            {| session_state := age_input age (session_state st);
               shown := shown st |})).
Proof. unfold homepage_sidebar. apply homepage_upload_store. Qed.

(** X9: through any sequence of page runs, starting from a session in
    which it holds (a fresh session in particular), the store stays
    consistent: whenever the flag [data_initialized] is present, both
    tables and the activity configuration are present too. *)
Theorem renders_store_consistent (inputs : list (Z * option File * File))
  (st : Streamlit) :
  store_consistent (session_state st) →
  store_consistent (session_state (renders inputs st)).
Proof.
  revert st. induction inputs as [|[[age u] d] later IH]; intros st Hok; [done|].
  cbn [renders]. apply IH. rewrite homepage_sidebar_store.
  apply initialize_data_store_consistent. cbn [session_state].
  by apply age_input_store_consistent.
Qed.

Lemma renders_store_consistent_witness :
  store_consistent
    (session_state
       (renders [(25%Z, Some (Raise (OSError "unreadable")), two_beat_file);
                 (25%Z, None, two_beat_file);
                 (40%Z, Some other_file, two_beat_file)]
          {| session_state := ∅; shown := [] |})).
Proof.
  apply renders_store_consistent.
  intros [v Hv]. discriminate Hv.
Defined.

(** X10: once the flag is in the store, no sequence of page runs, with or
    without uploads, changes any key of the store other than [user_age],
    which the age widget rewrites in every run: the flag, the tables of the
    first successful load and the configuration stay for the rest of the
    session. *)
Theorem renders_keep_first_load (inputs : list (Z * option File * File))
  (st : Streamlit) :
  is_Some (session_state st !! "data_initialized") →
  (∀ k, k ≠ "user_age" →
     session_state (renders inputs st) !! k = session_state st !! k) ∧
  session_state (renders inputs st) !! "data_initialized"
    = session_state st !! "data_initialized" ∧
  session_state (renders inputs st) !! "df_ecg"
    = session_state st !! "df_ecg" ∧
  session_state (renders inputs st) !! "df_ecg_pieken"
    = session_state st !! "df_ecg_pieken".
Proof.
  intros Hflag.
  assert (∀ k, k ≠ "user_age" →
            session_state (renders inputs st) !! k = session_state st !! k)
    as Hkeep; [|by repeat split; try apply Hkeep].
  revert st Hflag.
  induction inputs as [|[[age u] d] later IH]; intros st Hflag k Hk; [done|].
  cbn [renders].
  set (st0 := {| session_state := age_input age (session_state st);
                 shown := [] |}).
  assert (is_Some (session_state st0 !! "data_initialized")) as [v Hv].
  { unfold st0. cbn [session_state]. by rewrite age_input_other. }
  assert (session_state (homepage_sidebar age u d
            {| session_state := session_state st; shown := [] |})
          = session_state st0) as Hsame.
  { rewrite homepage_sidebar_store. cbn [session_state shown]. fold st0.
    by rewrite (initialize_data_guard u d st0 v Hv). }
  rewrite IH; [|rewrite Hsame; eauto|done].
  rewrite Hsame. unfold st0. cbn [session_state]. by apply age_input_other.
Qed.

Lemma renders_keep_first_load_witness :
  let st := renders [(25%Z, None, two_beat_file)]
              {| session_state := ∅; shown := [] |} in
  let st' := renders [(30%Z, Some other_file, two_beat_file);
                      (31%Z, None, other_file)] st in
  (∀ k, k ≠ "user_age" → session_state st' !! k = session_state st !! k) ∧
  session_state st' !! "data_initialized"
    = session_state st !! "data_initialized" ∧
  session_state st' !! "df_ecg" = session_state st !! "df_ecg" ∧
  session_state st' !! "df_ecg_pieken" = session_state st !! "df_ecg_pieken".
Proof.
  intros st st'. apply renders_keep_first_load.
  exists (VBool true). vm_compute. reflexivity.
Defined.



(** X12: what the return value of [initialize_data] tells.  It is [None]
    exactly when the session was initialized before the call; the flag is
    present after the call exactly when it was present before or the call
    returned [True]; and a message is shown only when it returns [False]. *)
Theorem initialize_data_flag (uploaded_file : option File) (data_Sanne : File)
  (st : Streamlit) :
  let ret := fst (initialize_data uploaded_file data_Sanne st) in
  let st' := snd (initialize_data uploaded_file data_Sanne st) in
  (ret = None ↔ is_Some (session_state st !! "data_initialized")) ∧
  (is_Some (session_state st' !! "data_initialized") ↔
     is_Some (session_state st !! "data_initialized") ∨ ret = Some true) ∧
  (ret ≠ Some false → shown st' = shown st) ∧
  (ret = Some false → ∃ e, shown st' = shown st ++ [load_error e]).
Proof.
  unfold initialize_data.
  destruct (session_state st !! "data_initialized") as [v|] eqn:Hflag;
    cbn [fst snd].
  - rewrite Hflag. repeat split; try done; eauto.
  - destruct (process _ _ _ _) as [[a b]|e]; cbn [fst snd session_state shown].
    + destruct (stored_lookups (session_state st) a b) as (H1 & _).
      rewrite H1. repeat split; try done; eauto.
    + destruct (configure_keeps_artifacts (session_state st)) as (_ & _ & ->).
      rewrite Hflag. repeat split; try done; eauto.
      intros [[? ?]|?]; done.
Qed.

Lemma initialize_data_flag_witness :
  let st := {| session_state := ∅; shown := [] |} in
  let ret := fst (initialize_data None (Raise (OSError "no such file")) st) in
  let st' := snd (initialize_data None (Raise (OSError "no such file")) st) in
  ∃ e, shown st' = shown st ++ [load_error e].
Proof.
  intros st ret st'.
  apply (proj2 (proj2 (proj2
    (initialize_data_flag None (Raise (OSError "no such file")) st)))).
  reflexivity.
Defined.

(** X13: what one run of the sidebar shows.  On an initialized session a
    run without upload shows nothing and a run with an upload shows only
    the generic failure message.  On a session that is not initialized, an
    upload that is processed shows the success message, an upload that
    raises shows two errors (the one of [initialize_data], then the generic
    one), and without upload the default recording gives the info message
    or the single error of [initialize_data]. *)
Theorem homepage_upload_messages (data_Sanne : File) (st : Streamlit) :
  (is_Some (session_state st !! "data_initialized") →
     homepage_upload None data_Sanne st = st ∧
     ∀ f, homepage_upload (Some f) data_Sanne st =
            {| session_state := session_state st;
               shown := shown st ++ [upload_failed] |}) ∧
  (session_state st !! "data_initialized" = None →
     (∀ f e,
        process f intervallen activiteiten rpieken_drempel = Raise e →
        shown (homepage_upload (Some f) data_Sanne st) =
          shown st ++ [load_error e; upload_failed]) ∧
     (∀ f a b,
        process f intervallen activiteiten rpieken_drempel = Ok (a, b) →
        shown (homepage_upload (Some f) data_Sanne st) =
          shown st ++ [upload_loaded]) ∧
     (∀ e,
        process data_Sanne intervallen activiteiten rpieken_drempel = Raise e →
        shown (homepage_upload None data_Sanne st) =
          shown st ++ [load_error e]) ∧
     (∀ a b,
        process data_Sanne intervallen activiteiten rpieken_drempel
          = Ok (a, b) →
        shown (homepage_upload None data_Sanne st) =
          shown st ++ [default_loaded])).
Proof.
  split.
  - intros [v Hv]. unfold homepage_upload. split.
    + rewrite (initialize_data_guard None data_Sanne st v Hv).
      by rewrite bool_decide_eq_false_2.
    + intros f. rewrite (initialize_data_guard (Some f) data_Sanne st v Hv).
      by rewrite bool_decide_eq_false_2.
  - intros Hflag. unfold homepage_upload, initialize_data. rewrite Hflag.
    split; [|split; [|split]].
    + intros f e ->. rewrite bool_decide_eq_false_2 by done.
      cbn [shown]. by rewrite <- app_assoc.
    + intros f a b ->. by rewrite bool_decide_eq_true_2.
    + intros e ->. by rewrite bool_decide_eq_false_2.
    + intros a b ->. by rewrite bool_decide_eq_true_2.
Qed.

Lemma homepage_upload_messages_witness :
  let st := {| session_state := ∅; shown := [] |} in
  shown (homepage_upload (Some (Ok (raw_frame []))) two_beat_file st) =
    shown st ++
      [load_error (IndexError "single positional indexer is out-of-bounds");
       upload_failed].
Proof.
  intros st.
  apply (proj1 (proj2 (homepage_upload_messages two_beat_file st) eq_refl)).
  vm_compute. reflexivity.
Defined.

(** * Further properties of the beat table *)

Lemma StronglySorted_sublist_of {A} (R : relation A) (l1 l2 : list A) :
  l1 `sublist_of` l2 → StronglySorted R l2 → StronglySorted R l1.
Proof.
  induction 1 as [|x l1 l2 Hsub IH|x l1 l2 Hsub IH]; intros Hs.
  - constructor.
  - apply StronglySorted_inv in Hs as [Hs Hall].
    constructor; [by apply IH|].
    apply Forall_forall. intros y Hy. rewrite Forall_forall in Hall.
    apply Hall. by eapply elem_of_sublist.
  - apply StronglySorted_inv in Hs as [Hs _]. by apply IH.
Qed.

Lemma StronglySorted_fmap_mono {A B} (R : relation A) (R' : relation B)
  (f : A → B) (l : list A) :
  (∀ a b, R a b → R' (f a) (f b)) →
  StronglySorted R l → StronglySorted R' (map f l).
Proof.
  intros Hmono. induction 1 as [|x l Hs IH Hall]; simpl; [constructor|].
  constructor; [done|].
  apply Forall_fmap. eapply Forall_impl; [exact Hall|].
  intros y Hy. by apply Hmono.
Qed.

Lemma elapsed_le (t0 a b : Z) : (a ≤ b)%Z → (elapsed t0 a <= elapsed t0 b)%Q.
Proof. intros H. unfold elapsed, Qle. simpl. lia. Qed.

Lemma elapsed_lt (t0 a b : Z) : (a < b)%Z → (elapsed t0 a < elapsed t0 b)%Q.
Proof. intros H. unfold elapsed, Qlt. simpl. lia. Qed.

Lemma assemble_timestamps (f : Z → Q) (c : Q → option string)
  (raw : list RawRow) :
  ∀ i, map timestamp
         (assemble i raw (map f (map raw_time raw))
            (map c (map f (map raw_time raw))))
       = map f (map raw_time raw).
Proof.
  induction raw as [|r raw IH]; intros i; simpl; [done|]. by rewrite IH.
Qed.

Lemma beats_after_samples (prev : Sample) (ps : list Sample) :
  map sample (beats_after prev ps) = ps.
Proof.
  revert prev. induction ps as [|p ps IH]; intros prev; simpl; [done|].
  by rewrite IH.
Qed.

Lemma beats_after_pair (prev : Sample) (ps : list Sample) (b : Beat) :
  b ∈ beats_after prev ps →
  ∃ tp tq,
    timestamp (sample b) = tq ∧
    rr b = Num (tq - tp) ∧
    bpm b = fdiv_pos 60 (Num (tq - tp)) ∧
    gemiddelde_tijd b = Num ((tp + tq) / 2) ∧
    ∀ R : relation Q,
      StronglySorted R (map timestamp (prev :: ps)) → R tp tq.
Proof.
  revert prev. induction ps as [|a ps IH]; intros prev Hb; simpl in Hb.
  - by apply elem_of_nil in Hb.
  - apply elem_of_cons in Hb as [-> | Hb].
    + exists (timestamp prev), (timestamp a). repeat split; try done.
      intros R Hs. simpl in Hs. apply StronglySorted_inv in Hs as [_ Hall].
      by apply Forall_cons in Hall as [? _].
    + destruct (IH a Hb) as (tp & tq & H1 & H2 & H3 & H4 & H5).
      exists tp, tq. repeat split; try done.
      intros R Hs. apply H5. simpl in Hs.
      by apply StronglySorted_inv in Hs as [? _].
Qed.

Lemma process_peak_times (df : Frame RawRow) (bins : list Z)
  (labels : list string) (thr : Q) (df_ecg : Frame Sample)
  (df_pk : Frame Beat) :
  process (Ok df) bins labels thr = Ok (df_ecg, df_pk) →
  ∃ pk t0,
    detecteer_Rpieken df_ecg thr = Ok pk ∧
    rows df_pk = derive_beats (rows pk) (map timestamp (rows pk)) ∧
    map timestamp (rows pk) `sublist_of`
      map (elapsed t0) (map raw_time (rows df)).
Proof.
  intros (df' & t0 & pk & [= <-] & _ & _ & Hrows & Hdet & Hbeats)%process_inv.
  exists pk, t0. split; [done|]. split; [done|].
  rewrite <- (assemble_timestamps (elapsed t0)
                (cut1 (map inject_Z bins) labels) (rows df) 0), <- Hrows.
  apply fmap_sublist. by eapply detecteer_Rpieken_rows_sublist.
Qed.

Lemma wrap_int64_small (z : Z) :
  (- 2 ^ 63 ≤ z < 2 ^ 63)%Z → wrap_int64 z = z.
Proof.
  intros Hz. unfold wrap_int64.
  change (2 ^ 63)%Z with 9223372036854775808%Z in *.
  change (2 ^ 64)%Z with 18446744073709551616%Z.
  rewrite Z.mod_small; lia.
Qed.

Lemma int64_to_float64_small (z : Z) :
  (Z.abs z < 2 ^ 53)%Z → int64_to_float64 z = z.
Proof.
  intros Hz. unfold int64_to_float64.
  by destruct (Z.ltb_spec (Z.abs z) (2 ^ 53)); [|lia].
Qed.

(** Within 2^53 ticks of the first sample the machine computes the exact
    quotient. *)
Lemma elapsed_int64_exact (t0 t : Z) :
  (Z.abs (t - t0) < 2 ^ 53)%Z → elapsed_int64 t0 t = elapsed t0 t.
Proof.
  intros Hd. unfold elapsed_int64, elapsed.
  rewrite wrap_int64_small, int64_to_float64_small; [done|done|].
  change (2 ^ 53)%Z with 9007199254740992%Z in Hd.
  change (2 ^ 63)%Z with 9223372036854775808%Z. lia.
Qed.

(** Outside that range it does not: neighbouring ticks above 2^53 collapse
    to one elapsed time, and a difference beyond int64 wraps to a negative
    one. *)
Example elapsed_int64_out_of_range :
  elapsed_int64 0 (2 ^ 54 + 1) = elapsed_int64 0 (2 ^ 54) ∧
  (elapsed_int64 (- 2 ^ 63) 1024 < 0)%Q.
Proof. split; reflexivity. Qed.

Lemma ticks_in_range_map (ticks : list Z) (t0 : Z) :
  ticks_in_range ticks → ticks !! 0 = Some t0 →
  map (elapsed t0) ticks = map (elapsed_int64 t0) ticks.
Proof.
  intros Hrange H0. specialize (Hrange t0 H0). clear H0.
  induction Hrange as [|t ticks' [_ Ht] _ IH]; [done|].
  cbn [map]. by rewrite elapsed_int64_exact, IH.
Qed.

Lemma process_machine_times (df : Frame RawRow) (bins : list Z)
  (labels : list string) (thr : Q) (df_ecg : Frame Sample)
  (df_pk : Frame Beat) :
  process (Ok df) bins labels thr = Ok (df_ecg, df_pk) →
  ticks_in_range (map raw_time (rows df)) →
  ∃ t0, map raw_time (rows df) !! 0 = Some t0 ∧
    map timestamp (rows df_ecg) = map (elapsed_int64 t0) (map raw_time (rows df)) ∧
    (∀ s, s ∈ rows df_ecg → timestamp s = elapsed_int64 t0 (time s)) ∧
    (∀ b, b ∈ rows df_pk →
          timestamp (sample b) = elapsed_int64 t0 (time (sample b))).
Proof.
  intros Hrun Hrange.
  destruct (process_inv _ _ _ _ _ _ Hrun)
    as (df' & t0 & pk & [= <-] & _ & H0 & Hrows & Hdet & Hbeats).
  assert (map raw_time (rows df) !! 0 = Some t0) as Hfirst.
  { destruct (rows df); [done|]. simpl in H0 |- *. by injection H0 as ->. }
  exists t0. split; [done|].
  assert (∀ s, s ∈ rows df_ecg → timestamp s = elapsed_int64 t0 (time s))
    as Hsamples.
  { intros s [k Hk]%list_elem_of_lookup. rewrite Hrows in Hk.
    apply assemble_lookup in Hk as (_ & Hts & _ & r & Hr & Htime & _).
    rewrite !list_lookup_fmap, Hr in Hts. simpl in Hts.
    injection Hts as <-. rewrite Htime.
    symmetry. apply elapsed_int64_exact.
    specialize (Hrange t0 Hfirst). rewrite Forall_forall in Hrange.
    apply (Hrange (raw_time r)). apply list_elem_of_fmap. exists r.
    split; [done|]. apply list_elem_of_lookup. eauto. }
  split; [|split; [done|]].
  - rewrite Hrows, assemble_timestamps. by apply ticks_in_range_map.
  - intros b Hb. rewrite Hbeats in Hb. apply derive_beats_sample in Hb.
    apply Hsamples. eapply elem_of_sublist; [exact Hb|].
    by eapply detecteer_Rpieken_rows_sublist.
Qed.

(** X14: the sign of the beat intervals follows the tick counter, as long
    as the ticks fit int64 and stay within 2^53 of the first one, where
    the elapsed times of the table are the ones the machine computes.  If
    the [time] column never decreases, every beat has [rr >= 0]; if it
    increases strictly, every beat has [rr > 0] and a finite positive
    [bpm = 60 / rr]. *)
Theorem process_rr_sign (df : Frame RawRow) (bins : list Z)
  (labels : list string) (thr : Q) (df_ecg : Frame Sample)
  (df_pk : Frame Beat) :
  process (Ok df) bins labels thr = Ok (df_ecg, df_pk) →
  ticks_in_range (map raw_time (rows df)) →
  (∃ t0, map raw_time (rows df) !! 0 = Some t0 ∧
     ∀ b, b ∈ rows df_pk →
          timestamp (sample b) = elapsed_int64 t0 (time (sample b))) ∧
  (StronglySorted Z.le (map raw_time (rows df)) →
     ∀ b, b ∈ rows df_pk → ∃ r, rr b = Num r ∧ (0 <= r)%Q) ∧
  (StronglySorted Z.lt (map raw_time (rows df)) →
     ∀ b, b ∈ rows df_pk →
       ∃ r, rr b = Num r ∧ (0 < r)%Q ∧
            bpm b = Num (60 / r) ∧ (0 < 60 / r)%Q).
Proof.
  intros Hrun Hrange. split.
  { destruct (process_machine_times _ _ _ _ _ _ Hrun Hrange)
      as (t0 & H0 & _ & _ & Hb). eauto. }
  destruct (process_peak_times _ _ _ _ _ _ Hrun) as (pk & t0 & _ & Hbeats & Hsub).
  rewrite Hbeats, derive_beats_unfold.
  split; intros Hticks b Hb; destruct (rows pk) as [|p tl];
    try (by apply elem_of_nil in Hb);
    destruct (beats_after_pair p tl b Hb) as (tp & tq & _ & Hrr & Hbpm & _ & HR).
  - exists (tq - tp)%Q. split; [done|].
    assert (tp <= tq)%Q as Hle; [|lra].
    apply HR. eapply StronglySorted_sublist_of; [exact Hsub|].
    eapply StronglySorted_fmap_mono; [|exact Hticks]. apply elapsed_le.
  - exists (tq - tp)%Q. split; [done|].
    assert (tp < tq)%Q as Hlt.
    { apply HR. eapply StronglySorted_sublist_of; [exact Hsub|].
      eapply StronglySorted_fmap_mono; [|exact Hticks]. apply elapsed_lt. }
    assert (0 < tq - tp)%Q as Hpos by lra.
    split; [done|]. split.
    + rewrite Hbpm. simpl. destruct (Qeq_bool _ 0) eqn:E; [|done].
      apply Qeq_bool_iff in E. lra.
    + apply Qlt_shift_div_l; [done|]. lra.
Qed.

Lemma process_rr_sign_witness :
  let df := raw_frame [(0%Z, 0%Q); (1024%Z, 5%Q); (2048%Z, 0%Q);
                       (130000%Z, 6%Q); (131000%Z, 0%Q)] in
  match process (Ok df) intervallen activiteiten rpieken_drempel with
  | Ok (df_ecg, df_pk) =>
      length (rows df_pk) = 1 ∧
      ∀ b, b ∈ rows df_pk →
        ∃ r, rr b = Num r ∧ (0 < r)%Q ∧
             bpm b = Num (60 / r) ∧ (0 < 60 / r)%Q
  | Raise _ => False
  end.
Proof.
  intros df.
  destruct (process (Ok df) intervallen activiteiten rpieken_drempel)
    as [[df_ecg df_pk]|e] eqn:Hrun; [|by vm_compute in Hrun].
  split; [by vm_compute in Hrun; injection Hrun as <- <-|].
  assert (ticks_in_range (map raw_time (rows df))) as Hrange.
  { intros t0 [= <-]. simpl.
    repeat (constructor; [by vm_compute|]). constructor. }
  apply (proj2 (proj2 (process_rr_sign df intervallen activiteiten
                         rpieken_drempel df_ecg df_pk Hrun Hrange))).
  simpl.
  repeat (constructor; [|repeat (constructor; [reflexivity|]); constructor]).
  constructor.
Defined.

Lemma detecteer_Rpieken_count (df out : Frame Sample) (pct : Q) :
  detecteer_Rpieken df pct = Ok out →
  2 * length (rows out) + 1 ≤ length (rows df).
Proof.
  intros (_ & _ & mx & Hmx & Hil)%detecteer_Rpieken_inv.
  rewrite (iloc_length _ _ _ Hil).
  destruct (find_peaks_spaced (map ECG (rows df)) (pct * mx)) as [_ Hcnt].
  rewrite length_map in Hcnt. apply Hcnt.
  destruct (rows df); [done|discriminate].
Qed.

(** X15: the beat table is the table of detected peaks without its first
    row, extended by three columns.  So it has one row less than there are
    peaks, a recording of fewer than five samples yields no beat at all,
    and for every beat [gemiddelde_tijd] lies half an RR interval before
    the beat's own elapsed time. *)
Theorem process_beat_table
  (file : File) (bins : list Z) (labels : list string) (thr : Q)
  (df_ecg : Frame Sample) (df_pk : Frame Beat) :
  process file bins labels thr = Ok (df_ecg, df_pk) →
  ∃ pk,
    detecteer_Rpieken df_ecg thr = Ok pk ∧
    map sample (rows df_pk) = tail (rows pk) ∧
    length (rows df_pk) = length (rows pk) - 1 ∧
    (rows df_pk ≠ [] → 5 ≤ length (rows df_ecg)) ∧
    (∀ b, b ∈ rows df_pk →
       ∃ r g, rr b = Num r ∧ gemiddelde_tijd b = Num g ∧
              (g == timestamp (sample b) - r / 2)%Q).
Proof.
  intros (df & t0 & pk & _ & _ & _ & _ & Hdet & Hbeats)%process_inv.
  exists pk. split; [done|].
  pose proof (detecteer_Rpieken_count _ _ _ Hdet) as Hcnt.
  rewrite Hbeats, derive_beats_unfold.
  destruct (rows pk) as [|p tl]; cbn [tail length] in *.
  - repeat split; try done. intros b Hb. by apply elem_of_nil in Hb.
  - split; [apply beats_after_samples|].
    rewrite beats_after_length. split; [lia|]. split.
    + intros Hne. destruct tl as [|q tl]; [done|]. cbn [length] in Hcnt. lia.
    + intros b Hb.
      destruct (beats_after_pair p tl b Hb)
        as (tp & tq & Hts & Hrr & _ & Hgem & _).
      exists (tq - tp)%Q, ((tp + tq) / 2)%Q.
      split; [done|]. split; [done|]. rewrite Hts. field.
Qed.

Lemma process_beat_table_witness :
  match process two_beat_file intervallen activiteiten rpieken_drempel with
  | Ok (df_ecg, df_pk) =>
      ∃ pk,
        detecteer_Rpieken df_ecg rpieken_drempel = Ok pk ∧
        map sample (rows df_pk) = tail (rows pk) ∧
        length (rows df_pk) = length (rows pk) - 1 ∧
        (rows df_pk ≠ [] → 5 ≤ length (rows df_ecg)) ∧
        (∀ b, b ∈ rows df_pk →
           ∃ r g, rr b = Num r ∧ gemiddelde_tijd b = Num g ∧
                  (g == timestamp (sample b) - r / 2)%Q)
  | Raise _ => False
  end.
Proof.
  destruct (process two_beat_file intervallen activiteiten rpieken_drempel)
    as [[df_ecg df_pk]|e] eqn:Hrun; [|by vm_compute in Hrun].
  exact (process_beat_table two_beat_file intervallen activiteiten
           rpieken_drempel df_ecg df_pk Hrun).
Defined.

(** * Independence of the origin of the tick counter *)

Lemma elapsed_shift (c t0 t : Z) : elapsed (t0 + c) (t + c) = elapsed t0 t.
Proof. unfold elapsed. f_equal. lia. Qed.

Lemma assemble_shift (c : Z) (raw : list RawRow) :
  ∀ i ts act,
    assemble i (map (shift_raw c) raw) ts act
    = map (shift_sample c) (assemble i raw ts act).
Proof.
  induction raw as [|r raw IH]; intros i ts act; [done|].
  destruct ts as [|t ts]; [done|]. destruct act as [|a act]; [done|].
  simpl. by rewrite IH.
Qed.

Lemma iloc_fmap {R} (f : R → R) (rs : list R) (ps : list nat) :
  iloc (map f rs) ps =
  match iloc rs ps with
  | Ok out => Ok (map f out)
  | Raise e => Raise e
  end.
Proof.
  induction ps as [|p ps IH]; [done|]. simpl.
  rewrite list_lookup_fmap. destruct (rs !! p) as [r|]; [|done]. simpl.
  rewrite IH. by destruct (iloc rs ps).
Qed.

Lemma detecteer_Rpieken_shift (c : Z) (df : Frame Sample) (pct : Q) :
  detecteer_Rpieken (map_rows (shift_sample c) df) pct =
  match detecteer_Rpieken df pct with
  | Ok out => Ok (map_rows (shift_sample c) out)
  | Raise e => Raise e
  end.
Proof.
  unfold detecteer_Rpieken, getitem, map_rows. cbn [columns rows].
  case_bool_decide; [|done]. cbn [mbind result_bind].
  rewrite map_map. cbn [shift_sample ECG].
  destruct (py_max (map ECG (rows df))) as [mx|]; [|done].
  cbn [mbind result_bind]. rewrite iloc_fmap.
  by destruct (iloc (rows df) _).
Qed.

Lemma assemble_beats_shift (c : Z) (ps : list Sample) :
  ∀ rrs bpms gem,
    filter (λ b, notna (rr b) = true)
      (assemble_beats (map (shift_sample c) ps) rrs bpms gem)
    = map (shift_beat c)
        (filter (λ b, notna (rr b) = true) (assemble_beats ps rrs bpms gem)).
Proof.
  induction ps as [|p ps IH]; intros rrs bpms gem; [done|].
  destruct rrs as [|r rrs]; [done|]. destruct bpms as [|v bpms]; [done|].
  destruct gem as [|g gem]; [done|].
  cbn [map assemble_beats]. rewrite !filter_cons. cbn [rr].
  destruct (decide (notna r = true)); cbn [map]; by rewrite IH.
Qed.

(** X16: the pipeline depends on differences of tick values only.  Adding
    a constant to every [time] value of the input changes nothing in either
    table except the [time] column itself: elapsed times, labels, detected
    peaks, intervals and rates are the same, and so is any exception. *)
Theorem process_shift_invariant (c : Z) (df : Frame RawRow) (bins : list Z)
  (labels : list string) (thr : Q) :
  process (Ok (map_rows (shift_raw c) df)) bins labels thr =
  match process (Ok df) bins labels thr with
  | Ok (df_ecg, df_pk) =>
      Ok (map_rows (shift_sample c) df_ecg, map_rows (shift_beat c) df_pk)
  | Raise e => Raise e
  end.
Proof.
  unfold process, getitem. cbn [mbind result_bind map_rows columns rows].
  case_bool_decide; [|done]. cbn [mbind result_bind].
  destruct (rows df) as [|r0 raw]; [done|].
  cbn [map iloc0 mbind result_bind shift_raw raw_time].
  rewrite !map_map. cbn [raw_time].
  rewrite elapsed_shift.
  rewrite (map_ext (λ x, elapsed (raw_time r0 + c) (raw_time x + c))
                   (λ x, elapsed (raw_time r0) (raw_time x)))
    by (intros; apply elapsed_shift).
  destruct (cut _ _ _) as [act|]; [|done]. cbn [mbind result_bind].
  change (shift_raw c r0 :: map (shift_raw c) raw)
    with (map (shift_raw c) (r0 :: raw)).
  rewrite assemble_shift.
  match goal with
  | |- context [detecteer_Rpieken {| columns := ?cs; rows := map _ ?rs |} thr] =>
      change {| columns := cs; rows := map (shift_sample c) rs |}
        with (map_rows (shift_sample c) {| columns := cs; rows := rs |})
  end.
  rewrite detecteer_Rpieken_shift.
  destruct (detecteer_Rpieken _ thr) as [pk|]; [|done].
  cbn [mbind result_bind map_rows columns rows].
  case_bool_decide; [|done]. cbn [mbind result_bind].
  unfold derive_beats. rewrite map_map. cbn [shift_sample timestamp].
  by rewrite assemble_beats_shift.
Qed.

(** * Elapsed times and the total of the intervals *)

(** X19: when the tick counter never decreases, fits int64 and stays
    within 2^53 of its first value, the elapsed times of the sample table
    are the ones the machine computes; they start at 0, are never negative
    and never decrease. *)
Theorem process_timestamps_sorted (df : Frame RawRow) (bins : list Z)
  (labels : list string) (thr : Q) (df_ecg : Frame Sample)
  (df_pk : Frame Beat) :
  process (Ok df) bins labels thr = Ok (df_ecg, df_pk) →
  StronglySorted Z.le (map raw_time (rows df)) →
  ticks_in_range (map raw_time (rows df)) →
  (∃ t0, map raw_time (rows df) !! 0 = Some t0 ∧
     map timestamp (rows df_ecg)
       = map (elapsed_int64 t0) (map raw_time (rows df))) ∧
  StronglySorted Qle (map timestamp (rows df_ecg)) ∧
  Forall (λ t, 0 <= t)%Q (map timestamp (rows df_ecg)) ∧
  ∃ t, map timestamp (rows df_ecg) !! 0 = Some t ∧ (t == 0)%Q.
Proof.
  intros Hrun Hticks Hrange. split.
  { destruct (process_machine_times _ _ _ _ _ _ Hrun Hrange)
      as (t0 & H0 & Hts & _). eauto. }
  destruct (process_inv _ _ _ _ _ _ Hrun)
    as (df' & t0 & pk & [= <-] & _ & H0 & Hrows & _ & _).
  rewrite Hrows, assemble_timestamps.
  destruct (rows df) as [|r0 raw]; [done|].
  simpl in H0. injection H0 as <-.
  assert (elapsed (raw_time r0) (raw_time r0) == 0)%Q as Hz.
  { unfold elapsed, Qeq. simpl. lia. }
  split; [|split].
  - eapply StronglySorted_fmap_mono; [|exact Hticks]. apply elapsed_le.
  - cbn [map] in Hticks |- *. apply StronglySorted_inv in Hticks as [_ Hall].
    constructor; [rewrite Hz; apply Qle_refl|].
    apply Forall_fmap. eapply Forall_impl; [exact Hall|].
    intros t Ht. cbn [compose]. rewrite <- Hz. by apply elapsed_le.
  - eexists. split; [reflexivity|exact Hz].
Qed.

Lemma process_timestamps_sorted_witness :
  let df := raw_frame [(500%Z, 0%Q); (500%Z, 5%Q); (1524%Z, 0%Q)] in
  match process (Ok df) intervallen activiteiten rpieken_drempel with
  | Ok (df_ecg, _) =>
      (∃ t0, map raw_time (rows df) !! 0 = Some t0 ∧
         map timestamp (rows df_ecg)
           = map (elapsed_int64 t0) (map raw_time (rows df))) ∧
      StronglySorted Qle (map timestamp (rows df_ecg)) ∧
      Forall (λ t, 0 <= t)%Q (map timestamp (rows df_ecg)) ∧
      ∃ t, map timestamp (rows df_ecg) !! 0 = Some t ∧ (t == 0)%Q
  | Raise _ => False
  end.
Proof.
  intros df.
  destruct (process (Ok df) intervallen activiteiten rpieken_drempel)
    as [[df_ecg df_pk]|e] eqn:Hrun; [|by vm_compute in Hrun].
  apply (process_timestamps_sorted df intervallen activiteiten rpieken_drempel
           df_ecg df_pk Hrun).
  - simpl.
    repeat (constructor; [|repeat (constructor; [discriminate|]); constructor]).
    constructor.
  - intros t0 [= <-]. simpl.
    repeat (constructor; [by vm_compute|]). constructor.
Defined.

Lemma last_default_irrelevant {A} (l : list A) :
  ∀ a d d', List.last (a :: l) d = List.last (a :: l) d'.
Proof.
  induction l as [|b l IH]; intros a d d'; [done|].
  change (List.last (a :: b :: l) d) with (List.last (b :: l) d).
  change (List.last (a :: b :: l) d') with (List.last (b :: l) d').
  apply IH.
Qed.

Lemma sum_rr_after (prev : Sample) (ps : list Sample) :
  (sum_rr (beats_after prev ps)
   == timestamp (List.last ps prev) - timestamp prev)%Q.
Proof.
  revert prev. induction ps as [|p ps IH]; intros prev.
  - simpl. ring.
  - cbn [beats_after sum_rr rr]. rewrite IH.
    destruct ps as [|q ps].
    + simpl. ring.
    + change (List.last (p :: q :: ps) prev) with (List.last (q :: ps) prev).
      rewrite (last_default_irrelevant ps q p prev). ring.
Qed.

(** X20: the intervals of the beat table add up to the time between the
    first and the last detected peak: nothing is lost or counted twice
    between consecutive beats. *)
Theorem derive_beats_total (p : Sample) (ps : list Sample) :
  (sum_rr (derive_beats (p :: ps) (map timestamp (p :: ps)))
   == timestamp (List.last ps p) - timestamp p)%Q.
Proof. rewrite derive_beats_unfold. apply sum_rr_after. Qed.
